(** * Sticker maker: the canvas generator and its debounced driver

    A shallow embedding of [addStickerOutline] and of the regeneration effect
    of [ResultView] (src/app/page.tsx), with the properties the design
    document states about them.

    Conventions of the embedding.
    - A JavaScript [number] is a real number: no rounding, no NaN, no
      infinities.  In particular the number assigned to [canvas.width] is kept
      as computed; the integer conversion the DOM applies when it stores the
      attribute is not part of the source and is not modelled.
    - The calls made on the 2D context are kept as a list of [CanvasOp], in
      program order; [exec] gives them a meaning on a pixel store.
    - What the browser decides (decoding the cutout, resampling and blurring
      in [drawImage], PNG encoding, fresh object URLs) is the [Browser]
      interface and the [Host] state. *)

From Stdlib Require Import Reals Lra Lia List ZArith String Bool.
From stdpp Require Import base option gmap.
Import ListNotations.

Open Scope R_scope.

(** ** Settings (the [StickerSettings] interface) *)

Inductive OutlineStyle := solid | wobbly | chaotic | wavy.

Inductive ShadowStyle := none | soft | hard | float.

Record WaveParams := { freq : R; amp : R }.

(** An opaque CSS colour, the value of a ['#rrggbb'] string: every
    [outlineColor] of the program is one ([DEFAULT_SETTINGS], [COLOR_PRESETS],
    the [<input type="color">] of the picker). *)
Record Rgb := { red : R; green : R; blue : R }.

(** A CSS colour with an alpha component, for the shadow colours
    ['rgba(0,0,0,a)'] and ['transparent']. *)
Record Rgba := { rgb : Rgb; opacity : R }.

Record StickerSettings := {
  outlineWidth : R;
  outlineColor : Rgb;
  outlineStyle : OutlineStyle;
  wave1 : WaveParams;
  wave2 : WaveParams;
  wave3 : WaveParams;
  masterAmp : R;
  shadowStyle : ShadowStyle
}.

Definition white : Rgb := {| red := 255; green := 255; blue := 255 |}.

Definition black : Rgb := {| red := 0; green := 0; blue := 0 |}.

Definition transparent : Rgba := {| rgb := black; opacity := 0 |}.

(** [WAVE_DEFAULTS.wobbly] spread into [DEFAULT_SETTINGS]. *)
Definition DEFAULT_SETTINGS : StickerSettings := {|
  outlineWidth := 8;
  outlineColor := white;
  outlineStyle := solid;
  wave1 := {| freq := 2; amp := 1.2 |};
  wave2 := {| freq := 3.5; amp := 0.8 |};
  wave3 := {| freq := 7; amp := 0.3 |};
  masterAmp := 2;
  shadowStyle := none
|}.

Definition isSolid (st : OutlineStyle) : bool :=
  match st with solid => true | _ => false end.

Definition isNone (sh : ShadowStyle) : bool :=
  match sh with none => true | _ => false end.

(** [x > y] as the boolean a JavaScript comparison yields. *)
Definition gtb (x y : R) : bool := if Rgt_dec x y then true else false.

(** ** Raster data *)

Record Pixel := { color : Rgb; alpha : R }.

(** The backing store: the pixel in column [i], row [j]. *)
Definition Bitmap := Z -> Z -> Pixel.

(** The decoded cutout, [img] in the source. *)
Record Image := { img_width : R; img_height : R; img_data : Bitmap }.

(** ** Canvas sizing (first lines of [img.onload]) *)

Definition wobbleExtra (s : StickerSettings) : R :=
  if negb (isSolid (outlineStyle s))
  then outlineWidth s * masterAmp s * (amp (wave1 s) + amp (wave2 s) + amp (wave3 s))
  else 0.

Definition pad (s : StickerSettings) : R :=
  Rmax (outlineWidth s + wobbleExtra s + 4) 4.

Definition shadowPad (s : StickerSettings) : R :=
  if negb (isNone (shadowStyle s)) then 30 else 0.

Definition canvasWidth (img : Image) (s : StickerSettings) : R :=
  img_width img + pad s * 2 + shadowPad s.

Definition canvasHeight (img : Image) (s : StickerSettings) : R :=
  img_height img + pad s * 2 + shadowPad s.

Definition cx (img : Image) (s : StickerSettings) : R := canvasWidth img s / 2.

Definition cy (img : Image) (s : StickerSettings) : R := canvasHeight img s / 2.

(** ** The calls on the 2D context *)

Inductive CompositeOp := SourceOver | SourceIn.

Inductive CanvasOp :=
| DrawImage (dx dy : R)
| SetGlobalCompositeOperation (op : CompositeOp)
| SetFillStyle (c : Rgb)
| FillRect (x y w h : R)
| SetShadowColor (c : Rgba)
| SetShadowBlur (b : R)
| SetShadowOffsetX (x : R)
| SetShadowOffsetY (y : R).

(** [drawAt(ox, oy)]: the cutout, moved by [(ox, oy)] from the centred
    position. *)
Definition drawAt (img : Image) (s : StickerSettings) (ox oy : R) : CanvasOp :=
  DrawImage (cx img s - img_width img / 2 + ox) (cy img s - img_height img / 2 + oy).

Definition steps : nat := 72.

(** [(2 * Math.PI * i) / steps] *)
Definition angleAt (i : nat) : R := 2 * PI * INR i / INR steps.

(** One pass of [for (let i = 0; i < steps; i++)]: a stamp per angle, at the
    radius [radius a] the loop body computes for the angle [a]. *)
Definition ring (img : Image) (s : StickerSettings) (radius : R -> R) : list CanvasOp :=
  map (fun i => let a := angleAt i in
                let r := radius a in
                drawAt img s (cos a * r) (sin a * r))
      (seq 0 steps).

(** The values a loop [for (let r = r0; r > 0; r -= 2)] runs its body at, cut
    off after [fuel] iterations. *)
Fixpoint countDown (fuel : nat) (r : R) : list R :=
  match fuel with
  | O => []
  | S n => if Rgt_dec r 0 then r :: countDown n (r - 2) else []
  end.

(** The loop itself: it stops within [up r0] iterations ([radiiFrom_unfold]
    is its unrolling, with no fuel left in sight). *)
Definition radiiFrom (r0 : R) : list R := countDown (Z.to_nat (up r0)) r0.

(** The three statements that recolour what has been stamped, and the reset of
    the composite mode. *)
Definition fillOutline (img : Image) (s : StickerSettings) : list CanvasOp :=
  [ SetGlobalCompositeOperation SourceIn;
    SetFillStyle (outlineColor s);
    FillRect 0 0 (canvasWidth img s) (canvasHeight img s);
    SetGlobalCompositeOperation SourceOver ].

(** *** Solid outline *)

Definition solidStamps (img : Image) (s : StickerSettings) : list CanvasOp :=
  let w := outlineWidth s in
  ring img s (fun _ => w)
  ++ flat_map (fun r => ring img s (fun _ => r)) (radiiFrom (w - 1)).

Definition solidOutline (img : Image) (s : StickerSettings) : list CanvasOp :=
  if isSolid (outlineStyle s) && gtb (outlineWidth s) 0
  then solidStamps img s ++ fillOutline img s
  else [].

(** *** Wave-based outline *)

Definition wobble (s : StickerSettings) (a : R) : R :=
  (sin (a * freq (wave1 s)) * amp (wave1 s) +
   cos (a * freq (wave2 s)) * amp (wave2 s) +
   sin (a * freq (wave3 s) + 1.5) * amp (wave3 s)) * masterAmp s.

(** The radius of the first loop: [w * Math.max(0.05, 1 + wobble(a))]. *)
Definition outerRadius (s : StickerSettings) (a : R) : R :=
  outlineWidth s * Rmax 0.05 (1 + wobble s a).

(** The radius of the nested loop, with [scale = rad / w]. *)
Definition innerRadius (s : StickerSettings) (rad : R) (a : R) : R :=
  let scale := rad / outlineWidth s in
  rad * Rmax 0.05 (1 + wobble s a * scale).

Definition waveStamps (img : Image) (s : StickerSettings) : list CanvasOp :=
  let w := outlineWidth s in
  ring img s (outerRadius s)
  ++ flat_map (fun rad => ring img s (innerRadius s rad)) (radiiFrom w).

Definition waveOutline (img : Image) (s : StickerSettings) : list CanvasOp :=
  if negb (isSolid (outlineStyle s)) && gtb (outlineWidth s) 0
  then waveStamps img s ++ fillOutline img s
  else [].

(** *** Shadow presets and the final draw *)

Definition rgba (r g b a : R) : Rgba :=
  {| rgb := {| red := r; green := g; blue := b |}; opacity := a |}.

Definition shadowOps (s : StickerSettings) : list CanvasOp :=
  match shadowStyle s with
  | soft => [ SetShadowColor (rgba 0 0 0 0.2); SetShadowBlur 16;
              SetShadowOffsetX 0; SetShadowOffsetY 4 ]
  | hard => [ SetShadowColor (rgba 0 0 0 0.35); SetShadowBlur 2;
              SetShadowOffsetX 3; SetShadowOffsetY 5 ]
  | float => [ SetShadowColor (rgba 0 0 0 0.18); SetShadowBlur 28;
               SetShadowOffsetX 0; SetShadowOffsetY 12 ]
  | none => []
  end.

(** [drawAt(0, 0); ctx.shadowColor = "transparent"] *)
Definition finalDraw (img : Image) (s : StickerSettings) : list CanvasOp :=
  [ drawAt img s 0 0; SetShadowColor transparent ].

(** Everything [img.onload] asks of the context, in order. *)
Definition drawingOps (img : Image) (s : StickerSettings) : list CanvasOp :=
  solidOutline img s ++ waveOutline img s ++ shadowOps s ++ finalDraw img s.

(** ** The 2D context: state and meaning of the calls *)

Record Context2D := {
  bitmap : Bitmap;
  globalCompositeOperation : CompositeOp;
  fillStyle : Rgb;
  shadowColor : Rgba;
  shadowBlur : R;
  shadowOffsetX : R;
  shadowOffsetY : R
}.

(** A context as [getContext("2d")] hands it out on a new canvas. *)
Definition newContext : Context2D := {|
  bitmap := fun _ _ => {| color := black; alpha := 0 |};
  globalCompositeOperation := SourceOver;
  fillStyle := black;
  shadowColor := transparent;
  shadowBlur := 0;
  shadowOffsetX := 0;
  shadowOffsetY := 0
|}.

(** What the browser contributes: the type of encoded images, the pixels
    after [ctx.drawImage(img, dx, dy)] in a given context state (resampling at
    fractional offsets and the shadow blur are its own), and the PNG encoder
    behind [canvas.toBlob] ([None]: the callback receives [null]). *)
Class Browser := {
  Blob : Type;
  drawImage : Context2D -> Image -> R -> R -> Bitmap;
  toBlob : R -> R -> Bitmap -> option Blob
}.

Definition leb (x y : R) : bool := if Rle_dec x y then true else false.

(** The pixel square [(i, j)] lies in the rectangle [x, y, w, h]. *)
Definition inRect (x y w h : R) (i j : Z) : bool :=
  leb x (IZR i) && leb (IZR i + 1) (x + w) && leb y (IZR j) && leb (IZR j + 1) (y + h).

(** One channel of Porter-Duff source-over on straight-alpha pixels. *)
Definition overChannel (cs sa cd da : R) : R :=
  let oa := sa + da * (1 - sa) in
  if Req_dec_T oa 0 then 0 else (cs * sa + cd * da * (1 - sa)) / oa.

(** Porter-Duff compositing of a source pixel onto a destination pixel. *)
Definition composite (op : CompositeOp) (src dst : Pixel) : Pixel :=
  match op with
  | SourceIn => {| color := color src; alpha := alpha src * alpha dst |}
  | SourceOver =>
      let ch f := overChannel (f (color src)) (alpha src) (f (color dst)) (alpha dst) in
      {| color := {| red := ch red; green := ch green; blue := ch blue |};
         alpha := alpha src + alpha dst * (1 - alpha src) |}
  end.

(** [ctx.fillRect(x, y, w, h)] with a plain colour as fill style and no
    visible shadow, the only state the program calls it in: the source is the
    opaque fill colour inside the rectangle and nothing outside it, and it is
    composited with every pixel in the current mode. *)
Definition fillRect (x y w h : R) (c : Context2D) : Bitmap :=
  fun i j =>
    let src := {| color := fillStyle c; alpha := if inRect x y w h i j then 1 else 0 |} in
    composite (globalCompositeOperation c) src (bitmap c i j).

Definition withBitmap (b : Bitmap) (c : Context2D) : Context2D :=
  {| bitmap := b;
     globalCompositeOperation := globalCompositeOperation c;
     fillStyle := fillStyle c;
     shadowColor := shadowColor c;
     shadowBlur := shadowBlur c;
     shadowOffsetX := shadowOffsetX c;
     shadowOffsetY := shadowOffsetY c |}.

Definition exec `{Browser} (img : Image) (c : Context2D) (op : CanvasOp) : Context2D :=
  match op with
  | DrawImage dx dy => withBitmap (drawImage c img dx dy) c
  | FillRect x y w h => withBitmap (fillRect x y w h c) c
  | SetGlobalCompositeOperation o =>
      {| bitmap := bitmap c; globalCompositeOperation := o; fillStyle := fillStyle c;
         shadowColor := shadowColor c; shadowBlur := shadowBlur c;
         shadowOffsetX := shadowOffsetX c; shadowOffsetY := shadowOffsetY c |}
  | SetFillStyle f =>
      {| bitmap := bitmap c; globalCompositeOperation := globalCompositeOperation c;
         fillStyle := f;
         shadowColor := shadowColor c; shadowBlur := shadowBlur c;
         shadowOffsetX := shadowOffsetX c; shadowOffsetY := shadowOffsetY c |}
  | SetShadowColor k =>
      {| bitmap := bitmap c; globalCompositeOperation := globalCompositeOperation c;
         fillStyle := fillStyle c;
         shadowColor := k; shadowBlur := shadowBlur c;
         shadowOffsetX := shadowOffsetX c; shadowOffsetY := shadowOffsetY c |}
  | SetShadowBlur b =>
      {| bitmap := bitmap c; globalCompositeOperation := globalCompositeOperation c;
         fillStyle := fillStyle c;
         shadowColor := shadowColor c; shadowBlur := b;
         shadowOffsetX := shadowOffsetX c; shadowOffsetY := shadowOffsetY c |}
  | SetShadowOffsetX x =>
      {| bitmap := bitmap c; globalCompositeOperation := globalCompositeOperation c;
         fillStyle := fillStyle c;
         shadowColor := shadowColor c; shadowBlur := shadowBlur c;
         shadowOffsetX := x; shadowOffsetY := shadowOffsetY c |}
  | SetShadowOffsetY y =>
      {| bitmap := bitmap c; globalCompositeOperation := globalCompositeOperation c;
         fillStyle := fillStyle c;
         shadowColor := shadowColor c; shadowBlur := shadowBlur c;
         shadowOffsetX := shadowOffsetX c; shadowOffsetY := y |}
  end.

Definition execAll `{Browser} (img : Image) (ops : list CanvasOp) (c : Context2D) : Context2D :=
  fold_left (exec img) ops c.

(** The context when [canvas.toBlob] is reached. *)
Definition render `{Browser} (img : Image) (s : StickerSettings) : Context2D :=
  execAll img (drawingOps img s) newContext.

(** ** The page around the generator *)

(** An object URL, as a handle. *)
Definition ObjectURL := nat.

(** What a run finds and leaves in the page: the image a URL decodes to
    ([None]: [img.onerror] fires), whether [getContext("2d")] yields a
    context, and the blobs held by object URLs, with the next URL
    [URL.createObjectURL] will hand out. *)
Record Host `{Browser} := {
  decode : string -> option Image;
  contextAvailable : bool;
  objectUrls : gmap ObjectURL Blob;
  nextUrl : ObjectURL
}.

Definition createObjectURL `{Browser} (b : Blob) (h : Host) : ObjectURL * Host :=
  (nextUrl h,
   {| decode := decode h; contextAvailable := contextAvailable h;
      objectUrls := <[nextUrl h := b]> (objectUrls h);
      nextUrl := S (nextUrl h) |}).

Definition revokeObjectURL `{Browser} (u : ObjectURL) (h : Host) : Host :=
  {| decode := decode h; contextAvailable := contextAvailable h;
     objectUrls := delete u (objectUrls h);
     nextUrl := nextUrl h |}.



(** How the promise of [addStickerOutline] settles. *)
Inductive Outcome :=
| Resolved (url : ObjectURL)
| Rejected (message : string).

Definition addStickerOutline `{Browser} (cutoutUrl : string) (s : StickerSettings)
  (h : Host) : Outcome * Host :=
  match decode h cutoutUrl with
  | None => (Rejected "Failed to load image", h)
  | Some img =>
      if negb (contextAvailable h) then (Rejected "Canvas context unavailable", h)
      else
        match toBlob (canvasWidth img s) (canvasHeight img s) (bitmap (render img s)) with
        | Some blob => let (url, h') := createObjectURL blob h in (Resolved url, h')
        | None => (Rejected "Failed to create blob", h)
        end
  end.

(** The raster a settled run leaves behind its URL. *)
Definition outputOf `{Browser} (r : Outcome * Host) : option Blob :=
  match fst r with
  | Resolved url => objectUrls (snd r) !! url
  | Rejected _ => None
  end.

Close Scope R_scope.

(** ** [ResultView]: the debounced regeneration effect

    Each run of the effect owns a [cancelled] flag and sets one timer; the
    callback of a timer that fires starts a generation, which settles in a
    later task.  A run is known by the id of its timer. *)

Inductive Phase :=
| Scheduled   (* the timer is set and has not fired *)
| Cleared     (* [clearTimeout] reached the timer before it fired *)
| InFlight    (* the callback runs and awaits [addStickerOutline] *)
| Settled.    (* the callback has returned *)

(** What the callback of one effect run closes over. *)
Record Closure := { captured : StickerSettings; cancelled : bool; phase : Phase }.

(** The component: props and state of the source, the timers and closures
    alive in the page, the page itself, and two fields of bookkeeping the
    source does not have: [produced], the URL each generation resolved with,
    and [shownBy], the run whose URL [stickerUrl] holds. *)
Record View `{Browser} := {
  cutout : string;
  settings : StickerSettings;
  stickerUrl : option ObjectURL;
  regenerating : bool;
  debounceRef : option nat;
  active : option nat;
  runs : gmap nat Closure;
  nextTimer : nat;
  page : Host;
  produced : gmap nat ObjectURL;
  shownBy : option nat
}.

Definition cancel (c : Closure) : Closure :=
  {| captured := captured c; cancelled := true; phase := phase c |}.

Definition unschedule (c : Closure) : Closure :=
  match phase c with
  | Scheduled => {| captured := captured c; cancelled := cancelled c; phase := Cleared |}
  | _ => c
  end.

Definition enter (p : Phase) (c : Closure) : Closure :=
  {| captured := captured c; cancelled := cancelled c; phase := p |}.

(** [clearTimeout(id)]: a timer that has fired is left alone. *)
Definition clearTimeout (id : nat) (rs : gmap nat Closure) : gmap nat Closure :=
  alter unschedule id rs.

(** [if (debounceRef.current) clearTimeout(debounceRef.current)] *)
Definition clearDebounce (ref : option nat) (rs : gmap nat Closure) : gmap nat Closure :=
  match ref with
  | Some id => clearTimeout id rs
  | None => rs
  end.

(** The function the effect returns, for the run that set timer [id]. *)
Definition cleanup `{Browser} (id : nat) (v : View) : View :=
  {| cutout := cutout v; settings := settings v; stickerUrl := stickerUrl v;
     regenerating := regenerating v; debounceRef := debounceRef v; active := None;
     runs := clearDebounce (debounceRef v) (alter cancel id (runs v));
     nextTimer := nextTimer v; page := page v;
     produced := produced v; shownBy := shownBy v |}.

(** The body of the effect: a fresh [cancelled], the pending timer cleared, a
    new timer of 100 ms stored in [debounceRef]. *)
Definition effect `{Browser} (v : View) : View :=
  let id := nextTimer v in
  {| cutout := cutout v; settings := settings v; stickerUrl := stickerUrl v;
     regenerating := regenerating v; debounceRef := Some id; active := Some id;
     runs := <[id := {| captured := settings v; cancelled := false; phase := Scheduled |}]>
               (clearDebounce (debounceRef v) (runs v));
     nextTimer := S id; page := page v;
     produced := produced v; shownBy := shownBy v |}.

(** [setSettings]: the next render sees new settings, so React runs the
    cleanup of the last effect run and then the effect again, the two in one
    task: no timer fires and no promise settles between them. *)
Definition setSettings `{Browser} (s : StickerSettings) (v : View) : View :=
  let v1 :=
    {| cutout := cutout v; settings := s; stickerUrl := stickerUrl v;
       regenerating := regenerating v; debounceRef := debounceRef v; active := active v;
       runs := runs v; nextTimer := nextTimer v; page := page v;
       produced := produced v; shownBy := shownBy v |} in
  effect (match active v1 with Some id => cleanup id v1 | None => v1 end).

(** The timer callback, up to its [await]. *)
Definition timerCallback `{Browser} (id : nat) (v : View) : View :=
  {| cutout := cutout v; settings := settings v; stickerUrl := stickerUrl v;
     regenerating := true; debounceRef := debounceRef v; active := active v;
     runs := alter (enter InFlight) id (runs v);
     nextTimer := nextTimer v; page := page v;
     produced := produced v; shownBy := shownBy v |}.

(** The timer callback, from its [await] on: the promise settles, and the
    continuation reads the [cancelled] of its own run. *)
Definition resume `{Browser} (id : nat) (c : Closure) (v : View) : View :=
  let (outcome, h) := addStickerOutline (cutout v) (captured c) (page v) in
  let rs := alter (enter Settled) id (runs v) in
  match outcome with
  | Resolved url =>
      if cancelled c then
        {| cutout := cutout v; settings := settings v; stickerUrl := stickerUrl v;
           regenerating := regenerating v; debounceRef := debounceRef v; active := active v;
           runs := rs; nextTimer := nextTimer v;
           page := revokeObjectURL url h;
           produced := <[id := url]> (produced v); shownBy := shownBy v |}
      else
        {| cutout := cutout v; settings := settings v; stickerUrl := Some url;
           regenerating := false; debounceRef := debounceRef v; active := active v;
           runs := rs; nextTimer := nextTimer v;
           page := match stickerUrl v with
                   | Some prev => revokeObjectURL prev h
                   | None => h
                   end;
           produced := <[id := url]> (produced v); shownBy := Some id |}
  | Rejected _ =>
      {| cutout := cutout v; settings := settings v; stickerUrl := stickerUrl v;
         regenerating := if cancelled c then regenerating v else false;
         debounceRef := debounceRef v; active := active v;
         runs := rs; nextTimer := nextTimer v; page := h;
         produced := produced v; shownBy := shownBy v |}
  end.

(** What can happen to a mounted view. *)
Inductive Event :=
| SettingsChanged (s : StickerSettings)
| TimerFired (id : nat)
| GenerationSettled (id : nat).

(** One event; [None] when it cannot happen in [v] (a timer that is not
    pending does not fire, a generation that is not in flight does not
    settle). *)
Definition step `{Browser} (e : Event) (v : View) : option View :=
  match e with
  | SettingsChanged s => Some (setSettings s v)
  | TimerFired id =>
      match runs v !! id with
      | Some c => match phase c with
                  | Scheduled => Some (timerCallback id v)
                  | _ => None
                  end
      | None => None
      end
  | GenerationSettled id =>
      match runs v !! id with
      | Some c => match phase c with
                  | InFlight => Some (resume id c v)
                  | _ => None
                  end
      | None => None
      end
  end.

Fixpoint run `{Browser} (es : list Event) (v : View) : option View :=
  match es with
  | [] => Some v
  | e :: es' => match step e v with
                | Some v' => run es' v'
                | None => None
                end
  end.

(** The first render: default settings, nothing shown, the effect run once. *)
Definition mount `{Browser} (cut : string) (h : Host) : View :=
  effect {| cutout := cut; settings := DEFAULT_SETTINGS; stickerUrl := None;
            regenerating := false; debounceRef := None; active := None;
            runs := ∅; nextTimer := 1; page := h;
            produced := ∅; shownBy := None |}.

(** The run [id] is waiting for its timer or generating. *)
Definition unsettled `{Browser} (id : nat) (v : View) : Prop :=
  exists c, runs v !! id = Some c /\ (phase c = Scheduled \/ phase c = InFlight).

(** Object URLs are handed out in order: the page holds none from
    [nextUrl] on. *)
Definition hostOk `{Browser} (h : Host) : Prop :=
  forall u, nextUrl h <= u -> objectUrls h !! u = None.

(** What holds of a view at every moment of its life. *)
Record viewOk `{Browser} (v : View) : Prop := {
  ok_host : hostOk (page v);
  ok_fresh : forall id u, produced v !! id = Some u -> u < nextUrl (page v);
  ok_settled : forall id u, produced v !! id = Some u ->
    exists c, runs v !! id = Some c /\ phase c = Settled;
  ok_shown : match shownBy v with
             | Some id => exists u, produced v !! id = Some u /\ stickerUrl v = Some u
             | None => stickerUrl v = None
             end;
  ok_held : forall id u, produced v !! id = Some u ->
    is_Some (objectUrls (page v) !! u) -> shownBy v = Some id;
  ok_live : forall u, stickerUrl v = Some u -> is_Some (objectUrls (page v) !! u);
  ok_timers : forall id c, runs v !! id = Some c -> id < nextTimer v;
  ok_active : exists id c,
    active v = Some id /\ runs v !! id = Some c /\ cancelled c = false;
  ok_superseded : forall id c,
    runs v !! id = Some c -> active v <> Some id -> cancelled c = true
}.

(** The run [a] has been superseded and nothing of it is left: it is not the
    one shown, and the URL it resolved with, if any, is revoked. *)
Definition discarded `{Browser} (a : nat) (v : View) : Prop :=
  (exists c, runs v !! a = Some c /\ cancelled c = true) /\
  shownBy v <> Some a /\
  forall u, produced v !! a = Some u ->
            objectUrls (page v) !! u = None /\ stickerUrl v <> Some u.

(** The run [b], started for the settings [s], is the last one, and the view
    shows either what it showed before [b] was started ([old]) or what [b]
    resolved with. *)
Definition awaited `{Browser} (b : nat) (s : StickerSettings) (old : option ObjectURL)
  (v : View) : Prop :=
  active v = Some b /\
  (exists c, runs v !! b = Some c /\ captured c = s) /\
  ((stickerUrl v = old /\ produced v !! b = None) \/
   (exists u, produced v !! b = Some u /\ stickerUrl v = Some u /\
              shownBy v = Some b /\ is_Some (objectUrls (page v) !! u))).

(** No object URL handed out from [base] on is held by the page, except the
    one the view shows. *)
Definition leakFree `{Browser} (base : ObjectURL) (v : View) : Prop :=
  forall u, base <= u -> is_Some (objectUrls (page v) !! u) -> stickerUrl v = Some u.

Definition isChange (e : Event) : bool :=
  match e with SettingsChanged _ => true | _ => false end.

Open Scope R_scope.

(** ** Inputs used in the examples *)

(** A 100 x 100 cutout, every pixel of it opaque white. *)
Definition square : Image :=
  {| img_width := 100; img_height := 100;
     img_data := fun i j =>
       if ((0 <=? i)%Z && (i <? 100)%Z && (0 <=? j)%Z && (j <? 100)%Z)%bool
       then {| color := white; alpha := 1 |}
       else {| color := black; alpha := 0 |} |}.

(** A browser to run the examples in: [drawImage] snaps the offset to whole
    pixels and draws no shadow, and [toBlob] keeps the raster as it is. *)
Definition plainBrowser : Browser := {|
  Blob := R * R * Bitmap;
  drawImage := fun c img dx dy i j =>
    composite (globalCompositeOperation c)
              (img_data img (i - Int_part dx)%Z (j - Int_part dy)%Z)
              (bitmap c i j);
  toBlob := fun w h b => Some (w, h, b)
|}.

(** A page in which the cutout decodes to [square] and a context is to be
    had, with no object URL handed out yet. *)
Definition plainHost : @Host plainBrowser :=
  {| decode := fun _ => Some square; contextAvailable := true;
     objectUrls := ∅; nextUrl := 0%nat |}.


Definition withStyle (st : OutlineStyle) (s : StickerSettings) : StickerSettings :=
  {| outlineWidth := outlineWidth s; outlineColor := outlineColor s;
     outlineStyle := st;
     wave1 := wave1 s; wave2 := wave2 s; wave3 := wave3 s;
     masterAmp := masterAmp s; shadowStyle := shadowStyle s |}.

Definition withWidth (w : R) (s : StickerSettings) : StickerSettings :=
  {| outlineWidth := w; outlineColor := outlineColor s;
     outlineStyle := outlineStyle s;
     wave1 := wave1 s; wave2 := wave2 s; wave3 := wave3 s;
     masterAmp := masterAmp s; shadowStyle := shadowStyle s |}.


(** ** The sentences of the design document that the code is compared with *)

(** The radii of the solid rings as the document words them: the outer ring
    at [outlineWidth], then rings stepping from [outlineWidth] down to just
    above 0 in steps of 2. *)
Definition documentedSolidRadii (w : R) : list R := w :: radiiFrom w.




(** ** Settings with waves that only push outwards by their amplitude

    The sliders of the panel give [masterAmp] and the three amplitudes a
    minimum of 0. *)
Definition nonNegativeWaves (s : StickerSettings) : Prop :=
  0 <= masterAmp s /\ 0 <= amp (wave1 s) /\ 0 <= amp (wave2 s) /\ 0 <= amp (wave3 s).

(** The calls that leave the shadow colour alone. *)
Definition keepsShadowColor (op : CanvasOp) : Prop :=
  match op with SetShadowColor _ => False | _ => True end.

(** ** The customize panel of [ResultView] *)

(** An entry of [WAVE_DEFAULTS]. *)
Record WavePreset := {
  preset_wave1 : WaveParams;
  preset_wave2 : WaveParams;
  preset_wave3 : WaveParams;
  preset_masterAmp : R
}.

(** [WAVE_DEFAULTS], keyed by the wave styles: there is no entry for
    [solid]. *)
Definition WAVE_DEFAULTS (st : OutlineStyle) : option WavePreset :=
  match st with
  | solid => None
  | wobbly => Some {| preset_wave1 := {| freq := 2; amp := 1.2 |};
                      preset_wave2 := {| freq := 3.5; amp := 0.8 |};
                      preset_wave3 := {| freq := 7; amp := 0.3 |};
                      preset_masterAmp := 2 |}
  | chaotic => Some {| preset_wave1 := {| freq := 4; amp := 1.5 |};
                       preset_wave2 := {| freq := 9; amp := 1.2 |};
                       preset_wave3 := {| freq := 17; amp := 0.8 |};
                       preset_masterAmp := 3 |}
  | wavy => Some {| preset_wave1 := {| freq := 1.5; amp := 1.8 |};
                    preset_wave2 := {| freq := 2.5; amp := 0.6 |};
                    preset_wave3 := {| freq := 5; amp := 0.2 |};
                    preset_masterAmp := 1.5 |}
  end.

(** A key of the settings with a value for it: the arguments of [set]. *)
Inductive Update :=
| SetOutlineWidth (v : R)
| SetOutlineColor (v : Rgb)
| SetOutlineStyle (v : OutlineStyle)
| SetWave1 (v : WaveParams)
| SetWave2 (v : WaveParams)
| SetWave3 (v : WaveParams)
| SetMasterAmp (v : R)
| SetShadowStyle (v : ShadowStyle).

(** The updater [s => ({ ...s, [key]: value })] that [set(key, value)] hands
    to [setSettings]. *)
Definition updater (u : Update) (s : StickerSettings) : StickerSettings :=
  {| outlineWidth := match u with SetOutlineWidth v => v | _ => outlineWidth s end;
     outlineColor := match u with SetOutlineColor v => v | _ => outlineColor s end;
     outlineStyle := match u with SetOutlineStyle v => v | _ => outlineStyle s end;
     wave1 := match u with SetWave1 v => v | _ => wave1 s end;
     wave2 := match u with SetWave2 v => v | _ => wave2 s end;
     wave3 := match u with SetWave3 v => v | _ => wave3 s end;
     masterAmp := match u with SetMasterAmp v => v | _ => masterAmp s end;
     shadowStyle := match u with SetShadowStyle v => v | _ => shadowStyle s end |}.

(** The keys ["wave1"], ["wave2"], ["wave3"] of the fine-tune sliders. *)
Inductive WaveKey := key_wave1 | key_wave2 | key_wave3.

(** [settings[key]] *)
Definition waveOf (k : WaveKey) (s : StickerSettings) : WaveParams :=
  match k with key_wave1 => wave1 s | key_wave2 => wave2 s | key_wave3 => wave3 s end.

(** [set(key, value)] for a wave key. *)
Definition SetWave (k : WaveKey) (v : WaveParams) : Update :=
  match k with key_wave1 => SetWave1 v | key_wave2 => SetWave2 v | key_wave3 => SetWave3 v end.

(** What the user can do in the panel. *)
Inductive PanelEvent :=
| Thickness (v : R)               (* the "Outline thickness" slider *)
| PickColor (v : Rgb)             (* a swatch or the colour input *)
| PickStyle (v : OutlineStyle)    (* a pill of "Outline style" *)
| Intensity (v : R)               (* the "Intensity" slider *)
| Freq (k : WaveKey) (v : R)      (* a "Freq" slider *)
| Amp (k : WaveKey) (v : R)       (* an "Amp" slider *)
| PickShadow (v : ShadowStyle).   (* a pill of "Shadow" *)

(** The calls of [set] an [onChange] handler makes, in order; [settings] is
    the value the handler closes over, that of the current render. *)
Definition handle (e : PanelEvent) (settings : StickerSettings) : list Update :=
  match e with
  | Thickness v => [ SetOutlineWidth v ]
  | PickColor c => [ SetOutlineColor c ]
  | PickStyle v =>
      SetOutlineStyle v ::
      (if negb (isSolid v)
       then match WAVE_DEFAULTS v with
            | Some d => [ SetWave1 (preset_wave1 d); SetWave2 (preset_wave2 d);
                          SetWave3 (preset_wave3 d); SetMasterAmp (preset_masterAmp d) ]
            | None => []
            end
       else [])
  | Intensity v => [ SetMasterAmp v ]
  | Freq k v => [ SetWave k {| freq := v; amp := amp (waveOf k settings) |} ]
  | Amp k v => [ SetWave k {| freq := freq (waveOf k settings); amp := v |} ]
  | PickShadow v => [ SetShadowStyle v ]
  end.

(** React runs the queued updaters in order on the state. *)
Definition applyUpdates (us : list Update) (s : StickerSettings) : StickerSettings :=
  fold_left (fun s u => updater u s) us s.

(** The settings of the next render. *)
Definition panelStep (s : StickerSettings) (e : PanelEvent) : StickerSettings :=
  applyUpdates (handle e s) s.

(** The [max] of a "Freq" slider: [key === "wave3" ? 30 : 20]. *)
Definition freqMax (k : WaveKey) : R :=
  match k with key_wave3 => 30 | _ => 20 end.

(** The values a range input can report, by its [min], [max] and [step]:
    thickness 0..20 in steps of 1, intensity 0..5, frequency 0.5..[freqMax],
    amplitude 0..2. *)
Definition fromPanel (e : PanelEvent) : Prop :=
  match e with
  | Thickness v => exists n : nat, (n <= 20)%nat /\ v = INR n
  | Intensity v => 0 <= v <= 5
  | Freq k v => 0.5 <= v <= freqMax k
  | Amp _ v => 0 <= v <= 2
  | _ => True
  end.

(** Settings within the ranges of the sliders. *)
Definition inRange (s : StickerSettings) : Prop :=
  (exists n : nat, (n <= 20)%nat /\ outlineWidth s = INR n) /\
  0 <= masterAmp s <= 5 /\
  (forall k, 0.5 <= freq (waveOf k s) <= freqMax k /\ 0 <= amp (waveOf k s) <= 2).

(** ** Dragging the preview ([pos] and [dragRef] of [ResultView]) *)

(** What [onPointerDown] keeps in [dragRef.current]. *)
Record DragStart := { startX : R; startY : R; origX : R; origY : R }.

(** The offset of the preview image, [pos.x] and [pos.y], and the drag in
    progress, if any. *)
Record Preview := { posX : R; posY : R; dragRef : option DragStart }.

Definition onPointerDown (clientX clientY : R) (p : Preview) : Preview :=
  {| posX := posX p; posY := posY p;
     dragRef := Some {| startX := clientX; startY := clientY;
                        origX := posX p; origY := posY p |} |}.

Definition onPointerMove (clientX clientY : R) (p : Preview) : Preview :=
  match dragRef p with
  | None => p
  | Some d => {| posX := origX d + (clientX - startX d);
                 posY := origY d + (clientY - startY d);
                 dragRef := dragRef p |}
  end.

Definition onPointerUp (p : Preview) : Preview :=
  {| posX := posX p; posY := posY p; dragRef := None |}.

Inductive PointerEvent :=
| PointerDown (clientX clientY : R)
| PointerMove (clientX clientY : R)
| PointerUp.

Definition pointer (p : Preview) (e : PointerEvent) : Preview :=
  match e with
  | PointerDown x y => onPointerDown x y p
  | PointerMove x y => onPointerMove x y p
  | PointerUp => onPointerUp p
  end.

(** Pointer moves through the given points. *)
Definition movesThrough (points : list (R * R)) : list PointerEvent :=
  map (fun q => PointerMove (fst q) (snd q)) points.

Close Scope R_scope.

(** ** The colour picker *)

Record ColorPreset := { preset_color : string; preset_label : string }.

Definition COLOR_PRESETS : list ColorPreset :=
  [ {| preset_color := "#ffffff"; preset_label := "White" |};
    {| preset_color := "#000000"; preset_label := "Black" |};
    {| preset_color := "#ef4444"; preset_label := "Red" |};
    {| preset_color := "#3b82f6"; preset_label := "Blue" |};
    {| preset_color := "#22c55e"; preset_label := "Green" |};
    {| preset_color := "#f59e0b"; preset_label := "Yellow" |};
    {| preset_color := "#a855f7"; preset_label := "Purple" |};
    {| preset_color := "#ec4899"; preset_label := "Pink" |} ].

(** [!COLOR_PRESETS.some((p) => p.color === value)] *)
Definition isCustom (value : string) : bool :=
  negb (existsb (fun p => String.eqb (preset_color p) value) COLOR_PRESETS).

(** The preset swatches drawn with the selection ring:
    [value === preset.color]. *)
Definition ringedPresets (value : string) : list ColorPreset :=
  List.filter (fun p => String.eqb (preset_color p) value) COLOR_PRESETS.

Open Scope R_scope.

Close Scope R_scope.

(** ** More on the regeneration effect *)

(** What holds of the timers and of the [regenerating] flag at every moment
    of a mounted view. *)
Record debounceOk `{Browser} (v : View) : Prop := {
  db_ref : debounceRef v = active v;
  db_single : forall id c,
    runs v !! id = Some c -> phase c = Scheduled -> active v = Some id;
  db_captured : forall id c,
    active v = Some id -> runs v !! id = Some c -> captured c = settings v;
  db_busy : forall id c,
    active v = Some id -> runs v !! id = Some c -> phase c = InFlight ->
    regenerating v = true;
  db_idle : forall id c,
    active v = Some id -> runs v !! id = Some c -> phase c = Settled ->
    regenerating v = false
}.



(** The blob [addStickerOutline] encodes for a decoded cutout and settings:
    the PNG of the rendered canvas. *)
Definition stickerBlob `{Browser} (img : Image) (s : StickerSettings) : option Blob :=
  toBlob (canvasWidth img s) (canvasHeight img s) (bitmap (render img s)).

(** What the URLs of the runs hold, in a view mounted on the cutout [cut] in
    a page that started as [h0]: a URL a run resolved with, while the page
    holds it, holds the sticker of the cutout for the settings of that run;
    and the URL of the last run, once it has resolved, is the one shown. *)
Record contentOk `{Browser} (h0 : Host) (cut : string) (v : View) : Prop := {
  ct_cutout : cutout v = cut;
  ct_decode : decode (page v) = decode h0;
  ct_blob : forall id u b c,
    produced v !! id = Some u -> objectUrls (page v) !! u = Some b ->
    runs v !! id = Some c ->
    exists img, decode h0 cut = Some img /\ stickerBlob img (captured c) = Some b;
  ct_shown : forall id u,
    active v = Some id -> produced v !! id = Some u -> shownBy v = Some id
}.

(** ** [Home]: from a chosen file to the result view *)

(** [ProcessingState]; the progress is the whole number [Math.round]
    returns, and the two URLs of ["done"] are object URLs. *)
Inductive ProcessingState :=
| Idle
| RemovingBg (progress : Z)
| CreatingSticker
| Error (message : string)
| Done (original cutout : ObjectURL).

(** [Math.round]: the nearest whole number, halves going up. *)
Definition Math_round (x : R) : Z := (up (x + / 2) - 1)%Z.

(** A file: its MIME type and its content. *)
Record File `{Browser} := { file_type : string; file_blob : Blob }.

(** Where a call of [processImage] waits: for the import of the library, or
    for [removeBackground], with its progress callback subscribed. *)
Inductive JobStage := Importing | Removing.

(** What a running [processImage] closes over. *)
Record Job := { originalUrl : ObjectURL; stage : JobStage }.

(** The component, the running [processImage] if any, the number of progress
    callbacks subscribed with the library, and the page. *)
Record Home `{Browser} := {
  state : ProcessingState;
  job : option Job;
  subscriptions : nat;
  homePage : Host
}.

(** [processImage], up to its first [await]. *)
Definition processImage `{Browser} (file : File) (hm : Home) : Home :=
  if negb (String.prefix "image/" (file_type file)) then hm
  else
    let (url, h) := createObjectURL (file_blob file) (homePage hm) in
    {| state := RemovingBg 0;
       job := Some {| originalUrl := url; stage := Importing |};
       subscriptions := subscriptions hm;
       homePage := h |}.

(** After the import: the progress callback is subscribed and
    [removeBackground(originalUrl)] is started. *)
Definition startRemoval `{Browser} (j : Job) (hm : Home) : Home :=
  {| state := state hm;
     job := Some {| originalUrl := originalUrl j; stage := Removing |};
     subscriptions := S (subscriptions hm);
     homePage := homePage hm |}.

(** The progress callback:
    [prev.status === "removing-bg" ? { status: "removing-bg", progress: pct } : prev]. *)
Definition onProgress (p : R) (st : ProcessingState) : ProcessingState :=
  match st with
  | RemovingBg _ => RemovingBg (Math_round p)
  | _ => st
  end.

(** [removeBackground] resolves: the library has made a URL for the cutout;
    the callback is unsubscribed and the state is ["done"]. *)
Definition finishRemoval `{Browser} (j : Job) (cutout : Blob) (hm : Home) : Home :=
  let (url, h) := createObjectURL cutout (homePage hm) in
  {| state := Done (originalUrl j) url;
     job := None;
     subscriptions := pred (subscriptions hm);
     homePage := h |}.

(** The [catch] branch; [err] is the message when what was thrown is an
    [Error]. *)
Definition failProcessing `{Browser} (j : Job) (err : option string) (hm : Home) : Home :=
  {| state := Error (match err with
                     | Some message => message
                     | None => "Something went wrong processing your image."
                     end);
     job := None;
     subscriptions := subscriptions hm;
     homePage := revokeObjectURL (originalUrl j) (homePage hm) |}.

(** [reset] *)
Definition reset `{Browser} (hm : Home) : Home :=
  {| state := Idle;
     job := job hm;
     subscriptions := subscriptions hm;
     homePage := match state hm with
                 | Done original cutout =>
                     revokeObjectURL cutout (revokeObjectURL original (homePage hm))
                 | _ => homePage hm
                 end |}.

Inductive HomeEvent `{Browser} :=
| FileChosen (file : File)       (* a drop or a pick in the file dialog *)
| Imported                        (* the import of the library resolves *)
| Progress (p : R)                (* the library reports progress *)
| Removed (cutout : Blob)         (* [removeBackground] resolves *)
| Failed (err : option string)    (* the import or [removeBackground] rejects *)
| ResetClicked.                   (* "Try again" or "Start over" *)

(** One event; [None] when it cannot happen: the drop zone is rendered in
    the idle state only, and the two buttons that call [reset] in the error
    and done states only. *)
Definition homeStep `{Browser} (e : HomeEvent) (hm : Home) : option Home :=
  match e with
  | FileChosen file =>
      match state hm with
      | Idle => Some (processImage file hm)
      | _ => None
      end
  | Imported =>
      match job hm with
      | Some j => match stage j with
                  | Importing => Some (startRemoval j hm)
                  | Removing => None
                  end
      | None => None
      end
  | Progress p =>
      Some (match subscriptions hm with
            | O => hm
            | S _ => {| state := onProgress p (state hm); job := job hm;
                        subscriptions := subscriptions hm; homePage := homePage hm |}
            end)
  | Removed cutout =>
      match job hm with
      | Some j => match stage j with
                  | Removing => Some (finishRemoval j cutout hm)
                  | Importing => None
                  end
      | None => None
      end
  | Failed err =>
      match job hm with
      | Some j => Some (failProcessing j err hm)
      | None => None
      end
  | ResetClicked =>
      match state hm with
      | Error _ | Done _ _ => Some (reset hm)
      | _ => None
      end
  end.

Fixpoint homeRun `{Browser} (es : list HomeEvent) (hm : Home) : option Home :=
  match es with
  | [] => Some hm
  | e :: es' => match homeStep e hm with
                | Some hm' => homeRun es' hm'
                | None => None
                end
  end.



Open Scope R_scope.

(** ** [LoadingState]: the progress ring *)

(** [state.status === "removing-bg" ? state.progress : 100] *)
Definition loadingProgress (st : ProcessingState) : R :=
  match st with
  | RemovingBg progress => IZR progress
  | _ => 100
  end.

(** [strokeDashoffset={100.5 - (100.5 * progress) / 100}]: how much of the
    ring, of length 100.5, is left undrawn. *)
Definition strokeDashoffset (st : ProcessingState) : R :=
  100.5 - (100.5 * loadingProgress st) / 100.
(** * Properties *)

(** ** Comparisons and the countdown loop *)

Lemma gtb_true (x y : R) : x > y -> gtb x y = true.
Proof. intros Hxy. unfold gtb. destruct (Rgt_dec x y); [reflexivity | contradiction]. Qed.

Lemma gtb_false (x y : R) : x <= y -> gtb x y = false.
Proof. intros Hxy. unfold gtb. destruct (Rgt_dec x y); [lra | reflexivity]. Qed.


(** Fuel beyond half the starting value is never used. *)
Lemma countDown_fuel (n m : nat) (r : R) :
  r <= 2 * INR n -> r <= 2 * INR m -> countDown n r = countDown m r.
Proof.
  revert m r. induction n as [|n IH]; intros m r Hn Hm.
  - simpl in Hn. destruct m as [|m]; [reflexivity|].
    simpl. destruct (Rgt_dec r 0); [lra | reflexivity].
  - destruct m as [|m].
    + simpl in Hm. simpl. destruct (Rgt_dec r 0); [lra | reflexivity].
    + rewrite S_INR in Hn, Hm. simpl.
      destruct (Rgt_dec r 0); [|reflexivity].
      f_equal. apply IH; lra.
Qed.

Lemma up_fuel (r : R) : r <= 2 * INR (Z.to_nat (up r)).
Proof.
  destruct (archimed r) as [Hup _].
  destruct (Rle_dec r 0) as [Hr|Hr].
  - pose proof (pos_INR (Z.to_nat (up r))). lra.
  - assert (Hpos : (0 < up r)%Z) by (apply lt_IZR; lra).
    rewrite INR_IZR_INZ, Z2Nat.id by lia. lra.
Qed.

(** The loop [for (r = r0; r > 0; r -= 2)], one iteration unrolled. *)
Lemma radiiFrom_unfold (r0 : R) :
  radiiFrom r0 = if Rgt_dec r0 0 then r0 :: radiiFrom (r0 - 2) else [].
Proof.
  unfold radiiFrom.
  rewrite (countDown_fuel _ (S (Z.to_nat (up (r0 - 2)))) r0).
  - reflexivity.
  - apply up_fuel.
  - rewrite S_INR. pose proof (up_fuel (r0 - 2)). lra.
Qed.

(** The [k]-th iteration runs at [r0 - 2k], as long as that is positive. *)
Lemma radiiFrom_nth (k : nat) (r0 : R) :
  nth_error (radiiFrom r0) k =
  if Rgt_dec (r0 - 2 * INR k) 0 then Some (r0 - 2 * INR k) else None.
Proof.
  revert r0. induction k as [|k IH]; intros r0; rewrite radiiFrom_unfold.
  - simpl. destruct (Rgt_dec r0 0), (Rgt_dec (r0 - 2 * 0) 0); try lra; try reflexivity.
    f_equal. lra.
  - rewrite S_INR. pose proof (pos_INR k) as Hk.
    destruct (Rgt_dec r0 0) as [Hr|Hr]; simpl.
    + rewrite IH.
      destruct (Rgt_dec (r0 - 2 - 2 * INR k) 0), (Rgt_dec (r0 - 2 * (INR k + 1)) 0);
        try lra; try reflexivity.
      f_equal. lra.
    + destruct (Rgt_dec (r0 - 2 * (INR k + 1)) 0); [lra | reflexivity].
Qed.


(** ** Rings of stamps *)

Lemma ring_length (img : Image) (s : StickerSettings) (radius : R -> R) :
  length (ring img s radius) = steps.
Proof. unfold ring. rewrite length_map, length_seq. reflexivity. Qed.

Lemma ring_nth (img : Image) (s : StickerSettings) (radius : R -> R) (i : nat) :
  (i < steps)%nat ->
  nth_error (ring img s radius) i =
  Some (drawAt img s (cos (angleAt i) * radius (angleAt i))
                     (sin (angleAt i) * radius (angleAt i))).
Proof.
  intros Hi. unfold ring. rewrite nth_error_map, nth_error_seq.
  apply Nat.ltb_lt in Hi. rewrite Hi. reflexivity.
Qed.

Lemma ring_In (img : Image) (s : StickerSettings) (radius : R -> R) (op : CanvasOp) :
  In op (ring img s radius) ->
  exists i, (i < steps)%nat /\
    op = drawAt img s (cos (angleAt i) * radius (angleAt i))
                      (sin (angleAt i) * radius (angleAt i)).
Proof.
  unfold ring. intros Hin. apply in_map_iff in Hin.
  destruct Hin as [i [<- Hi]]. apply in_seq in Hi.
  exists i. split; [lia | reflexivity].
Qed.

Lemma angleAt_0 : angleAt 0 = 0.
Proof. unfold angleAt. simpl. lra. Qed.

(** ** Canvas sizing *)

Lemma pad_floor (s : StickerSettings) : 4 <= pad s.
Proof. unfold pad. apply Rmax_r. Qed.

Lemma shadowPad_nonneg (s : StickerSettings) : 0 <= shadowPad s.
Proof. unfold shadowPad. destruct (shadowStyle s); simpl; lra. Qed.



(** C7. With the style fixed and all inputs non-negative, a larger outline
    width, larger wave amplitudes and a larger master amplitude never give a
    smaller padding. *)
Theorem pad_monotone (s s' : StickerSettings) :
  outlineStyle s = outlineStyle s' ->
  0 <= outlineWidth s <= outlineWidth s' ->
  0 <= masterAmp s <= masterAmp s' ->
  0 <= amp (wave1 s) <= amp (wave1 s') ->
  0 <= amp (wave2 s) <= amp (wave2 s') ->
  0 <= amp (wave3 s) <= amp (wave3 s') ->
  pad s <= pad s'.
Proof.
  intros Hst Hw Hm H1 H2 H3.
  assert (Hextra : wobbleExtra s <= wobbleExtra s').
  { unfold wobbleExtra. rewrite <- Hst.
    destruct (isSolid (outlineStyle s)); simpl; [lra|].
    set (a := amp (wave1 s) + amp (wave2 s) + amp (wave3 s)).
    set (a' := amp (wave1 s') + amp (wave2 s') + amp (wave3 s')).
    assert (Ha : 0 <= a <= a') by (unfold a, a'; lra).
    apply Rle_trans with (outlineWidth s' * masterAmp s' * a).
    - apply Rmult_le_compat_r; [lra|].
      apply Rmult_le_compat; lra.
    - apply Rmult_le_compat_l; [|lra].
      apply Rmult_le_pos; lra. }
  unfold pad. apply Rle_max_compat_r. lra.
Qed.

Lemma pad_monotone_witness :
  pad (withStyle wobbly DEFAULT_SETTINGS) <= pad (withWidth 9 (withStyle wobbly DEFAULT_SETTINGS)).
Proof. apply pad_monotone; simpl; try reflexivity; lra. Defined.

(** ** Solid outline *)

Lemma solidOutline_runs (img : Image) (s : StickerSettings) :
  outlineStyle s = solid -> outlineWidth s > 0 ->
  solidOutline img s = solidStamps img s ++ fillOutline img s.
Proof.
  intros Hst Hw. unfold solidOutline. rewrite Hst, (gtb_true _ _ Hw). reflexivity.
Qed.

(** C3, as the code has it. For the solid style and a positive width, the
    ring of radius [outlineWidth] is stamped first, then the rings of radius
    [outlineWidth - 1], [outlineWidth - 3], ... as long as the radius is
    positive, and then the fill; each ring is 72 stamps, the [i]-th at offset
    [(cos a * r, sin a * r)] for the angle [a = 2 pi i / 72]. *)
Theorem solid_rings (img : Image) (s : StickerSettings) :
  outlineStyle s = solid -> outlineWidth s > 0 ->
  let w := outlineWidth s in
  solidOutline img s =
    flat_map (fun r => ring img s (fun _ => r)) (w :: radiiFrom (w - 1))
    ++ fillOutline img s /\
  (forall k, nth_error (radiiFrom (w - 1)) k =
             if Rgt_dec (w - 1 - 2 * INR k) 0 then Some (w - 1 - 2 * INR k) else None) /\
  (forall r, length (ring img s (fun _ => r)) = 72%nat /\
     forall i, (i < 72)%nat ->
       nth_error (ring img s (fun _ => r)) i =
       Some (drawAt img s (cos (angleAt i) * r) (sin (angleAt i) * r))).
Proof.
  intros Hst Hw w. split; [|split].
  - rewrite solidOutline_runs by assumption. reflexivity.
  - intros k. apply radiiFrom_nth.
  - intros r. split; [apply ring_length|].
    intros i Hi. apply (ring_nth img s (fun _ => r) i Hi).
Qed.

Lemma solid_rings_witness :
  nth_error (radiiFrom (outlineWidth DEFAULT_SETTINGS - 1)) 3 =
  if Rgt_dec (outlineWidth DEFAULT_SETTINGS - 1 - 2 * INR 3) 0
  then Some (outlineWidth DEFAULT_SETTINGS - 1 - 2 * INR 3) else None.
Proof.
  assert (Hst : outlineStyle DEFAULT_SETTINGS = solid) by reflexivity.
  assert (Hw : outlineWidth DEFAULT_SETTINGS > 0) by (simpl; lra).
  exact (proj1 (proj2 (solid_rings square DEFAULT_SETTINGS Hst Hw)) 3%nat).
Defined.

(** The stamp that opens the second ring at the default settings. *)
Lemma second_ring_default :
  nth_error (solidStamps square DEFAULT_SETTINGS) 72 =
  Some (drawAt square DEFAULT_SETTINGS (cos (angleAt 0) * 7) (sin (angleAt 0) * 7)).
Proof.
  unfold solidStamps.
  rewrite nth_error_app2 by (rewrite ring_length; apply Nat.le_refl).
  rewrite ring_length. change (72 - steps)%nat with 0%nat.
  rewrite radiiFrom_unfold.
  destruct (Rgt_dec (outlineWidth DEFAULT_SETTINGS - 1) 0) as [_|Hn];
    [|exfalso; apply Hn; simpl; lra].
  cbn [flat_map].
  rewrite nth_error_app1 by (rewrite ring_length; unfold steps; lia).
  rewrite (ring_nth _ _ _ 0%nat) by (unfold steps; lia).
  simpl outlineWidth. do 2 f_equal; f_equal; lra.
Qed.

(** The stamp at position 72 of a sequence of rings that starts with two
    rings of radii [r1] and [r2]. *)
Lemma second_ring_of (img : Image) (s : StickerSettings) (r1 r2 : R) (rest : list R) :
  nth_error (flat_map (fun r => ring img s (fun _ => r)) (r1 :: r2 :: rest)) 72 =
  Some (drawAt img s (cos (angleAt 0) * r2) (sin (angleAt 0) * r2)).
Proof.
  cbn [flat_map].
  rewrite nth_error_app2 by (rewrite ring_length; apply Nat.le_refl).
  rewrite ring_length. change (72 - steps)%nat with 0%nat.
  rewrite nth_error_app1 by (rewrite ring_length; unfold steps; lia).
  apply (ring_nth img s (fun _ => r2) 0%nat). unfold steps. lia.
Qed.

(** C3, as it is worded, fails: at the default settings (width 8) the second
    ring is stamped at radius 7.  The document has the rings after the first
    step down from 8 in steps of 2: the second ring is then at radius 8, or
    at radius 6 if the first ring is counted as the start of the descent. *)
Lemma solid_rings_counterexample :
  solidStamps square DEFAULT_SETTINGS <>
  flat_map (fun r => ring square DEFAULT_SETTINGS (fun _ => r))
           (documentedSolidRadii (outlineWidth DEFAULT_SETTINGS)) /\
  solidStamps square DEFAULT_SETTINGS <>
  flat_map (fun r => ring square DEFAULT_SETTINGS (fun _ => r))
           (radiiFrom (outlineWidth DEFAULT_SETTINGS)).
Proof.
  assert (H8 : radiiFrom (outlineWidth DEFAULT_SETTINGS) = 8 :: 6 :: radiiFrom (8 - 2 - 2)).
  { simpl outlineWidth.
    rewrite radiiFrom_unfold. destruct (Rgt_dec 8 0); [|lra].
    rewrite (radiiFrom_unfold (8 - 2)). destruct (Rgt_dec (8 - 2) 0); [|lra].
    do 2 f_equal. lra. }
  split; intros Heq; apply (f_equal (fun l => nth_error l 72)) in Heq;
    rewrite second_ring_default in Heq; unfold documentedSolidRadii in Heq;
    rewrite H8 in Heq; rewrite second_ring_of in Heq;
    unfold drawAt in Heq; injection Heq as Hx _;
    rewrite angleAt_0, cos_0 in Hx; lra.
Qed.

(** ** Wave-based outline *)

Lemma waveOutline_runs (img : Image) (s : StickerSettings) :
  outlineStyle s <> solid -> outlineWidth s > 0 ->
  waveOutline img s = waveStamps img s ++ fillOutline img s.
Proof.
  intros Hst Hw. unfold waveOutline. rewrite (gtb_true _ _ Hw).
  destruct (outlineStyle s); [contradiction | reflexivity..].
Qed.




(** ** Shadow presets *)

Lemma execAll_app `{Browser} (img : Image) (ops ops' : list CanvasOp) (c : Context2D) :
  execAll img (ops ++ ops') c = execAll img ops' (execAll img ops c).
Proof. unfold execAll. apply fold_left_app. Qed.





(** ** Width zero *)

Lemma outline_skipped (img : Image) (s : StickerSettings) :
  outlineWidth s <= 0 -> solidOutline img s = [] /\ waveOutline img s = [].
Proof.
  intros Hw. unfold solidOutline, waveOutline.
  rewrite (gtb_false _ _ Hw), !andb_false_r. split; reflexivity.
Qed.

(** C4. With [outlineWidth = 0], whatever the style and the wave settings,
    no stamp is drawn and nothing is filled: the calls on the context are the
    shadow preset, the draw of the cutout and the reset of the shadow colour,
    on a canvas with the floor padding of 4, and the raster is the one these
    calls alone produce. *)
Theorem zero_width_no_outline `{Browser} (img : Image) (s : StickerSettings) :
  outlineWidth s = 0 ->
  solidOutline img s = [] /\
  waveOutline img s = [] /\
  drawingOps img s = shadowOps s ++ [ drawAt img s 0 0; SetShadowColor transparent ] /\
  render img s =
    execAll img (shadowOps s ++ [ drawAt img s 0 0; SetShadowColor transparent ]) newContext /\
  pad s = 4.
Proof.
  intros Hw.
  destruct (outline_skipped img s) as [Hsolid Hwave]; [lra|].
  assert (Hops : drawingOps img s =
                 shadowOps s ++ [ drawAt img s 0 0; SetShadowColor transparent ]).
  { unfold drawingOps. rewrite Hsolid, Hwave. reflexivity. }
  repeat split; try assumption.
  - unfold render. rewrite Hops. reflexivity.
  - unfold pad, wobbleExtra. rewrite Hw.
    destruct (negb (isSolid (outlineStyle s))); rewrite Rmax_right; lra.
Qed.

Lemma zero_width_no_outline_witness :
  drawingOps square (withWidth 0 (withStyle chaotic DEFAULT_SETTINGS)) =
  shadowOps (withWidth 0 (withStyle chaotic DEFAULT_SETTINGS))
  ++ [ drawAt square (withWidth 0 (withStyle chaotic DEFAULT_SETTINGS)) 0 0;
       SetShadowColor transparent ].
Proof.
  exact (proj1 (proj2 (proj2
    (@zero_width_no_outline plainBrowser square
       (withWidth 0 (withStyle chaotic DEFAULT_SETTINGS)) eq_refl)))).
Defined.

(** ** The outline fill *)


Lemma ring_draws (img : Image) (s : StickerSettings) (radius : R -> R) :
  Forall (fun op => exists dx dy, op = DrawImage dx dy) (ring img s radius).
Proof.
  apply List.Forall_forall. intros op Hin. apply ring_In in Hin.
  destruct Hin as [i [_ ->]]. unfold drawAt. eauto.
Qed.

Lemma rings_draw (img : Image) (s : StickerSettings) (radius : R -> R -> R) (l : list R) :
  Forall (fun op => exists dx dy, op = DrawImage dx dy)
         (flat_map (fun r => ring img s (radius r)) l).
Proof.
  induction l as [|r l IH]; cbn [flat_map].
  - constructor.
  - apply Forall_app. split; [apply ring_draws | exact IH].
Qed.





(** ** The generator as a whole *)

Lemma addStickerOutline_resolves `{Browser} (h : Host) (url : string) (img : Image)
  (s : StickerSettings) (blob : Blob) :
  decode h url = Some img ->
  contextAvailable h = true ->
  toBlob (canvasWidth img s) (canvasHeight img s) (bitmap (render img s)) = Some blob ->
  addStickerOutline url s h = (Resolved (nextUrl h), snd (createObjectURL blob h)).
Proof.
  intros Himg Hctx Hblob. unfold addStickerOutline.
  rewrite Himg, Hctx, Hblob. reflexivity.
Qed.

(** C10. Once the cutout has loaded, a context is to be had and the encoder
    delivers, the promise resolves whatever the settings are, with the encoded
    canvas behind the URL; both outline branches are skipped for a width of
    zero or less; and each side of the canvas is at least 8 longer than the
    side of the cutout. *)
Theorem generation_succeeds `{Browser} (h : Host) (url : string) (img : Image)
  (s : StickerSettings) (blob : Blob) :
  decode h url = Some img ->
  contextAvailable h = true ->
  toBlob (canvasWidth img s) (canvasHeight img s) (bitmap (render img s)) = Some blob ->
  fst (addStickerOutline url s h) = Resolved (nextUrl h) /\
  outputOf (addStickerOutline url s h) = Some blob /\
  (outlineWidth s <= 0 -> solidOutline img s = [] /\ waveOutline img s = []) /\
  canvasWidth img s >= img_width img + 8 /\
  canvasHeight img s >= img_height img + 8.
Proof.
  intros Himg Hctx Hblob.
  rewrite (addStickerOutline_resolves h url img s blob Himg Hctx Hblob).
  pose proof (pad_floor s) as Hp. pose proof (shadowPad_nonneg s) as Hs.
  split; [reflexivity|]. split.
  - unfold outputOf, createObjectURL. simpl. apply lookup_insert_eq.
  - split; [apply outline_skipped|].
    unfold canvasWidth, canvasHeight. split; lra.
Qed.

Lemma generation_succeeds_witness :
  fst (@addStickerOutline plainBrowser "blob:cutout"
         (withWidth (-3) (withStyle chaotic DEFAULT_SETTINGS)) plainHost)
  = Resolved 0%nat.
Proof.
  exact (proj1 (@generation_succeeds plainBrowser plainHost "blob:cutout" square
                  (withWidth (-3) (withStyle chaotic DEFAULT_SETTINGS)) _
                  eq_refl eq_refl eq_refl)).
Defined.



(** ** The regeneration effect *)

Close Scope R_scope.

Section Regeneration.
Context `{Browser}.

(** The promise either rejects and leaves the page as it was, or resolves
    with the next URL of the page, which then holds the new blob. *)
Lemma addStickerOutline_cases (url : string) (s : StickerSettings) (h : Host) :
  (exists m, addStickerOutline url s h = (Rejected m, h)) \/
  (exists blob, addStickerOutline url s h =
     (Resolved (nextUrl h),
      {| decode := decode h; contextAvailable := contextAvailable h;
         objectUrls := <[nextUrl h := blob]> (objectUrls h);
         nextUrl := S (nextUrl h) |})).
Proof.
  unfold addStickerOutline.
  destruct (decode h url) as [img|]; [|left; eauto].
  destruct (contextAvailable h) eqn:Hctx; simpl; [|left; eauto].
  destruct (toBlob _ _ _) as [blob|]; [right | left; eauto].
  exists blob. unfold createObjectURL. rewrite Hctx. reflexivity.
Qed.

Lemma unschedule_cancelled (c : Closure) : cancelled (unschedule c) = cancelled c.
Proof. unfold unschedule. destruct (phase c); reflexivity. Qed.

Lemma unschedule_captured (c : Closure) : captured (unschedule c) = captured c.
Proof. unfold unschedule. destruct (phase c); reflexivity. Qed.

Lemma unschedule_settled (c : Closure) :
  phase (unschedule c) = Settled <-> phase c = Settled.
Proof.
  unfold unschedule. destruct (phase c) eqn:Hp; simpl; rewrite ?Hp; split; congruence.
Qed.

Lemma clearDebounce_lookup (ref : option nat) (rs : gmap nat Closure) (id : nat) :
  clearDebounce ref rs !! id =
  if decide (ref = Some id) then unschedule <$> rs !! id else rs !! id.
Proof.
  unfold clearDebounce, clearTimeout. destruct ref as [r|].
  - rewrite lookup_alter. destruct (decide (r = id)) as [->|Hne].
    + rewrite decide_True by reflexivity. reflexivity.
    + rewrite decide_False by congruence. reflexivity.
  - rewrite decide_False by discriminate. reflexivity.
Qed.

(** What a lookup in the timers of a view finds after [clearDebounce]: the
    closure that was there, with its flag, and settled only if it was. *)
Lemma clearDebounce_Some (ref : option nat) (rs : gmap nat Closure) (id : nat) (c' : Closure) :
  clearDebounce ref rs !! id = Some c' ->
  exists c, rs !! id = Some c /\ cancelled c' = cancelled c /\
            captured c' = captured c /\
            (phase c' = Settled <-> phase c = Settled).
Proof.
  rewrite clearDebounce_lookup. destruct (decide (ref = Some id)) as [_|_].
  - destruct (rs !! id) as [c|]; simpl; [|discriminate].
    intros [= <-]. exists c.
    split; [reflexivity|]. split; [apply unschedule_cancelled|].
    split; [apply unschedule_captured | apply unschedule_settled].
  - intros Hc. exists c'. repeat split; auto.
Qed.

Lemma clearDebounce_keeps (ref : option nat) (rs : gmap nat Closure) (id : nat) (c : Closure) :
  rs !! id = Some c ->
  exists c', clearDebounce ref rs !! id = Some c' /\ cancelled c' = cancelled c /\
             captured c' = captured c /\
             (phase c = Settled -> phase c' = Settled).
Proof.
  intros Hc. rewrite clearDebounce_lookup, Hc.
  destruct (decide (ref = Some id)) as [_|_]; simpl.
  - exists (unschedule c). split; [reflexivity|].
    split; [apply unschedule_cancelled|].
    split; [apply unschedule_captured | apply unschedule_settled].
  - exists c. repeat split; auto.
Qed.

Lemma mount_ok (cut : string) (h : Host) : hostOk h -> viewOk (mount cut h).
Proof.
  intros Hh. unfold mount, effect. constructor; simpl.
  - exact Hh.
  - intros id u Hp. rewrite lookup_empty in Hp. discriminate.
  - intros id u Hp. rewrite lookup_empty in Hp. discriminate.
  - reflexivity.
  - intros id u Hp. rewrite lookup_empty in Hp. discriminate.
  - intros u Hu. discriminate.
  - intros id c Hc. apply lookup_insert_Some in Hc.
    destruct Hc as [[<- _]|[_ Hc]]; [lia|].
    rewrite lookup_empty in Hc. discriminate.
  - eexists _, _. split; [reflexivity|]. split; [apply lookup_insert_eq | reflexivity].
  - intros id c Hc Hne. apply lookup_insert_Some in Hc.
    destruct Hc as [[<- _]|[_ Hc]]; [congruence|].
    rewrite lookup_empty in Hc. discriminate.
Qed.

(** The timers after [setSettings], read backwards: a closure found there is
    the new one, or an old one with its flag raised if it was the last run. *)
Lemma setSettings_runs_Some (s : StickerSettings) (v : View) (a id : nat) (c' : Closure) :
  active v = Some a ->
  runs (setSettings s v) !! id = Some c' ->
  (id = nextTimer v /\
   c' = {| captured := s; cancelled := false; phase := Scheduled |}) \/
  (id <> nextTimer v /\
   exists c, runs v !! id = Some c /\
             (phase c' = Settled <-> phase c = Settled) /\
             cancelled c' = if decide (a = id) then true else cancelled c).
Proof.
  intros Ha. unfold setSettings. simpl. rewrite Ha. simpl.
  intros Hc. apply lookup_insert_Some in Hc.
  destruct Hc as [[<- <-]|[Hne Hc]]; [left; split; reflexivity|].
  right. split; [congruence|].
  apply clearDebounce_Some in Hc. destruct Hc as [c1 [Hc1 [Hcan1 [_ Hph1]]]].
  apply clearDebounce_Some in Hc1. destruct Hc1 as [c2 [Hc2 [Hcan2 [_ Hph2]]]].
  apply lookup_alter_Some in Hc2.
  destruct Hc2 as [[-> [c [Hc ->]]]|[Hna Hc]].
  - exists c. split; [exact Hc|]. rewrite decide_True by reflexivity.
    split; [|rewrite Hcan1, Hcan2; reflexivity]. rewrite Hph1, Hph2. reflexivity.
  - exists c2. split; [exact Hc|]. rewrite decide_False by exact Hna.
    split; [|congruence]. rewrite Hph1, Hph2. reflexivity.
Qed.

(** The same, read forwards: an old closure is still there. *)
Lemma setSettings_runs_keeps (s : StickerSettings) (v : View) (a id : nat) (c : Closure) :
  active v = Some a ->
  runs v !! id = Some c -> id <> nextTimer v ->
  exists c', runs (setSettings s v) !! id = Some c' /\
             (phase c = Settled -> phase c' = Settled) /\
             cancelled c' = if decide (a = id) then true else cancelled c.
Proof.
  intros Ha Hc Hne. unfold setSettings. simpl. rewrite Ha. simpl.
  rewrite lookup_insert_ne by congruence.
  assert (Hc0 : exists c0, alter cancel a (runs v) !! id = Some c0 /\
                  phase c0 = phase c /\
                  cancelled c0 = if decide (a = id) then true else cancelled c).
  { rewrite lookup_alter. destruct (decide (a = id)) as [->|Hna].
    - rewrite Hc. simpl. eexists. split; [reflexivity|]. split; reflexivity.
    - exists c. rewrite Hc. repeat split. }
  destruct Hc0 as [c0 [Hc0 [Hph0 Hcan0]]].
  destruct (clearDebounce_keeps (debounceRef v) _ _ _ Hc0) as [c1 [Hc1 [Hcan1 [_ Hph1]]]].
  destruct (clearDebounce_keeps (debounceRef v) _ _ _ Hc1) as [c2 [Hc2 [Hcan2 [_ Hph2]]]].
  exists c2. split; [exact Hc2|]. split; [|congruence].
  intros Hs. apply Hph2, Hph1. congruence.
Qed.

Lemma setSettings_ok (s : StickerSettings) (v : View) :
  viewOk v -> viewOk (setSettings s v).
Proof.
  intros Hv. destruct (ok_active v Hv) as [a [ca [Ha [Hca Hcan]]]].
  assert (Hfields : page (setSettings s v) = page v /\
                    produced (setSettings s v) = produced v /\
                    shownBy (setSettings s v) = shownBy v /\
                    stickerUrl (setSettings s v) = stickerUrl v /\
                    active (setSettings s v) = Some (nextTimer v) /\
                    nextTimer (setSettings s v) = S (nextTimer v)).
  { unfold setSettings. simpl. rewrite Ha. simpl. repeat split. }
  destruct Hfields as [Hpage [Hprod [Hshown [Hurl [Hact Hnext]]]]].
  constructor; rewrite ?Hpage, ?Hprod, ?Hshown, ?Hurl, ?Hact, ?Hnext.
  - apply (ok_host v Hv).
  - apply (ok_fresh v Hv).
  - intros id u Hp. destruct (ok_settled v Hv id u Hp) as [c [Hc Hph]].
    pose proof (ok_timers v Hv id c Hc) as Hlt.
    destruct (setSettings_runs_keeps s v a id c Ha Hc) as [c' [Hc' [Hph' _]]]; [lia|].
    exists c'. split; [exact Hc' | auto].
  - apply (ok_shown v Hv).
  - apply (ok_held v Hv).
  - apply (ok_live v Hv).
  - intros id c' Hc'.
    destruct (setSettings_runs_Some s v a id c' Ha Hc') as [[-> _]|[_ [c [Hc _]]]]; [lia|].
    pose proof (ok_timers v Hv id c Hc). lia.
  - eexists _, _. split; [reflexivity|].
    unfold setSettings. simpl. rewrite Ha. simpl.
    split; [apply lookup_insert_eq | reflexivity].
  - intros id c' Hc' Hne.
    destruct (setSettings_runs_Some s v a id c' Ha Hc') as [[-> _]|[_ [c [Hc [_ Hcan']]]]];
      [congruence|].
    rewrite Hcan'. destruct (decide (a = id)) as [_|Hna]; [reflexivity|].
    apply (ok_superseded v Hv id c Hc). congruence.
Qed.

(** The timers after a run has moved to a new phase. *)
Lemma enter_Some (p : Phase) (id0 : nat) (rs : gmap nat Closure) (id : nat) (c' : Closure) :
  alter (enter p) id0 rs !! id = Some c' ->
  exists c, rs !! id = Some c /\ cancelled c' = cancelled c /\
            (id <> id0 -> c' = c) /\ (id = id0 -> phase c' = p).
Proof.
  intros Hc. apply lookup_alter_Some in Hc.
  destruct Hc as [[-> [c [Hc ->]]]|[Hne Hc]].
  - exists c. repeat split; [exact Hc | congruence].
  - exists c'. repeat split; [exact Hc | congruence].
Qed.

Lemma enter_keeps (p : Phase) (id0 : nat) (rs : gmap nat Closure) (id : nat) (c : Closure) :
  rs !! id = Some c ->
  exists c', alter (enter p) id0 rs !! id = Some c' /\ cancelled c' = cancelled c /\
             (id <> id0 -> c' = c) /\ (id = id0 -> phase c' = p).
Proof.
  intros Hc. rewrite lookup_alter.
  destruct (decide (id0 = id)) as [->|Hne]; rewrite Hc; simpl.
  - eexists. split; [reflexivity|]. repeat split. congruence.
  - exists c. repeat split. congruence.
Qed.

Lemma enter_captured (p : Phase) (id0 : nat) (rs : gmap nat Closure) (id : nat)
  (s : StickerSettings) :
  (exists c, rs !! id = Some c /\ captured c = s) ->
  exists c', alter (enter p) id0 rs !! id = Some c' /\ captured c' = s.
Proof.
  intros [c [Hc Hs]]. rewrite lookup_alter.
  destruct (decide (id0 = id)) as [->|Hne]; rewrite Hc; simpl.
  - eexists. split; [reflexivity | exact Hs].
  - exists c. split; [reflexivity | exact Hs].
Qed.

Lemma enter_timers (p : Phase) (id0 : nat) (v : View) :
  viewOk v ->
  (forall id c, alter (enter p) id0 (runs v) !! id = Some c -> id < nextTimer v) /\
  (exists id c, active v = Some id /\
                alter (enter p) id0 (runs v) !! id = Some c /\ cancelled c = false) /\
  (forall id c, alter (enter p) id0 (runs v) !! id = Some c ->
                active v <> Some id -> cancelled c = true).
Proof.
  intros Hv. split; [|split].
  - intros id c' Hc'. apply enter_Some in Hc'. destruct Hc' as [c [Hc _]].
    apply (ok_timers v Hv id c Hc).
  - destruct (ok_active v Hv) as [a [c [Ha [Hc Hcan]]]].
    destruct (enter_keeps p id0 _ _ _ Hc) as [c' [Hc' [Hcan' _]]].
    exists a, c'. split; [exact Ha|]. split; [exact Hc' | congruence].
  - intros id c' Hc' Hne. apply enter_Some in Hc'.
    destruct Hc' as [c [Hc [Hcan _]]]. rewrite Hcan.
    apply (ok_superseded v Hv id c Hc Hne).
Qed.

(** A run that is not settled has produced nothing and is not shown. *)
Lemma unsettled_fresh (v : View) (id : nat) (c : Closure) :
  viewOk v -> runs v !! id = Some c -> phase c <> Settled ->
  produced v !! id = None /\ shownBy v <> Some id.
Proof.
  intros Hv Hc Hph.
  assert (Hnone : produced v !! id = None).
  { destruct (produced v !! id) as [u|] eqn:Hp; [|reflexivity].
    destruct (ok_settled v Hv id u Hp) as [c0 [Hc0 Hs]]. congruence. }
  split; [exact Hnone|].
  intros Hs. pose proof (ok_shown v Hv) as Hshown. rewrite Hs in Hshown.
  destruct Hshown as [u [Hp _]]. congruence.
Qed.

Lemma timerCallback_ok (id0 : nat) (c0 : Closure) (v : View) :
  viewOk v -> runs v !! id0 = Some c0 -> phase c0 = Scheduled ->
  viewOk (timerCallback id0 v).
Proof.
  intros Hv Hc0 Hph0.
  destruct (enter_timers InFlight id0 v Hv) as [Ht [Ha Hs]].
  constructor; simpl; try assumption.
  - apply (ok_host v Hv).
  - apply (ok_fresh v Hv).
  - intros id u Hp. destruct (ok_settled v Hv id u Hp) as [c [Hc Hph]].
    destruct (enter_keeps InFlight id0 _ _ _ Hc) as [c' [Hc' [_ [Hsame _]]]].
    exists c'. split; [exact Hc'|].
    rewrite Hsame; [exact Hph|]. intros ->. congruence.
  - apply (ok_shown v Hv).
  - apply (ok_held v Hv).
  - apply (ok_live v Hv).
Qed.

(** A URL the page holds is below the next one. *)
Lemma held_below (h : Host) (u : ObjectURL) :
  hostOk h -> is_Some (objectUrls h !! u) -> u < nextUrl h.
Proof.
  intros Hh [b Hb]. destruct (decide (u < nextUrl h)) as [Hlt|Hge]; [exact Hlt|].
  rewrite Hh in Hb by lia. discriminate.
Qed.

Lemma settled_kept (id0 : nat) (c0 : Closure) (v : View) (id : nat) (u : ObjectURL) :
  viewOk v -> runs v !! id0 = Some c0 ->
  <[id0 := nextUrl (page v)]> (produced v) !! id = Some u ->
  exists c, alter (enter Settled) id0 (runs v) !! id = Some c /\ phase c = Settled.
Proof.
  intros Hv Hc0 Hp. apply lookup_insert_Some in Hp.
  destruct Hp as [[<- _]|[Hne Hp]].
  - destruct (enter_keeps Settled id0 _ _ _ Hc0) as [c' [Hc' [_ [_ Hph]]]].
    exists c'. split; [exact Hc' | auto].
  - destruct (ok_settled v Hv id u Hp) as [c [Hc Hph]].
    destruct (enter_keeps Settled id0 _ _ _ Hc) as [c' [Hc' [_ [Hsame _]]]].
    exists c'. split; [exact Hc'|]. rewrite Hsame; [exact Hph | congruence].
Qed.

Lemma resume_ok (id0 : nat) (c0 : Closure) (v : View) :
  viewOk v -> runs v !! id0 = Some c0 -> phase c0 = InFlight ->
  viewOk (resume id0 c0 v).
Proof.
  intros Hv Hc0 Hph0.
  destruct (enter_timers Settled id0 v Hv) as [Ht [Ha Hs]].
  destruct (unsettled_fresh v id0 c0 Hv Hc0) as [Hnone Hnot]; [congruence|].
  pose proof (ok_host v Hv) as Hhost.
  unfold resume.
  destruct (addStickerOutline_cases (cutout v) (captured c0) (page v))
    as [[m ->]|[blob ->]].
  - (* the promise rejects *)
    constructor; simpl; try assumption.
    + apply (ok_fresh v Hv).
    + intros id u Hp. destruct (ok_settled v Hv id u Hp) as [c [Hc Hph]].
      destruct (enter_keeps Settled id0 _ _ _ Hc) as [c' [Hc' [_ [Hsame _]]]].
      exists c'. split; [exact Hc'|].
      rewrite Hsame; [exact Hph|]. intros ->. congruence.
    + apply (ok_shown v Hv).
    + apply (ok_held v Hv).
    + apply (ok_live v Hv).
  - destruct (cancelled c0) eqn:Hcan.
    + (* resolved, but superseded: the URL is revoked at once *)
      constructor; unfold revokeObjectURL, hostOk; simpl; try assumption.
      * intros u Hu. rewrite lookup_delete_ne, lookup_insert_ne by lia.
        apply Hhost. lia.
      * intros id u Hp. apply lookup_insert_Some in Hp.
        destruct Hp as [[_ <-]|[_ Hp]]; [lia|].
        pose proof (ok_fresh v Hv id u Hp). lia.
      * intros id u Hp. apply (settled_kept id0 c0 v id u Hv Hc0 Hp).
      * pose proof (ok_shown v Hv) as Hshown.
        destruct (shownBy v) as [e|]; [|exact Hshown].
        destruct Hshown as [u [Hp Hu]]. exists u. split; [|exact Hu].
        rewrite lookup_insert_ne by congruence. exact Hp.
      * intros id u Hp Hheld. apply lookup_insert_Some in Hp.
        destruct Hp as [[_ <-]|[_ Hp]].
        -- rewrite lookup_delete_eq in Hheld. destruct Hheld as [? ?]. discriminate.
        -- pose proof (ok_fresh v Hv id u Hp) as Hlt.
           rewrite lookup_delete_ne, lookup_insert_ne in Hheld by lia.
           apply (ok_held v Hv id u Hp Hheld).
      * intros u Hu. pose proof (ok_live v Hv u Hu) as Hlive.
        pose proof (held_below _ _ Hhost Hlive) as Hlt.
        rewrite lookup_delete_ne, lookup_insert_ne by lia. exact Hlive.
    + (* resolved and current: shown, the previous URL revoked *)
      assert (Hprev : forall u, stickerUrl v = Some u -> u < nextUrl (page v)).
      { intros u Hu. apply held_below; [exact Hhost | apply (ok_live v Hv u Hu)]. }
      constructor; unfold revokeObjectURL, hostOk; simpl; try assumption.
      * intros u Hu. destruct (stickerUrl v) as [prev|]; simpl in *.
        -- pose proof (Hprev prev eq_refl).
           rewrite lookup_delete_ne, lookup_insert_ne by lia. apply Hhost. lia.
        -- rewrite lookup_insert_ne by lia. apply Hhost. lia.
      * intros id u Hp.
        assert (Hlt : u < S (nextUrl (page v))).
        { apply lookup_insert_Some in Hp. destruct Hp as [[_ <-]|[_ Hp]]; [lia|].
          pose proof (ok_fresh v Hv id u Hp). lia. }
        destruct (stickerUrl v); exact Hlt.
      * intros id u Hp. apply (settled_kept id0 c0 v id u Hv Hc0 Hp).
      * exists (nextUrl (page v)). split; [apply lookup_insert_eq | reflexivity].
      * intros id u Hp Hheld. apply lookup_insert_Some in Hp.
        destruct Hp as [[<- _]|[Hne Hp]]; [reflexivity|]. exfalso.
        pose proof (ok_fresh v Hv id u Hp) as Hlt.
        pose proof (ok_shown v Hv) as Hshown.
        destruct (stickerUrl v) as [prev|] eqn:Hurl; simpl in Hheld.
        -- destruct (decide (prev = u)) as [->|Hnp].
           ++ rewrite lookup_delete_eq in Hheld. destruct Hheld as [? ?]. discriminate.
           ++ rewrite lookup_delete_ne, lookup_insert_ne in Hheld by lia.
              rewrite (ok_held v Hv id u Hp Hheld) in Hshown.
              destruct Hshown as [u' [Hp' Hu']]. congruence.
        -- rewrite lookup_insert_ne in Hheld by lia.
           rewrite (ok_held v Hv id u Hp Hheld) in Hshown.
           destruct Hshown as [u' [_ Hu']]. discriminate.
      * intros u [= <-]. destruct (stickerUrl v) as [prev|]; simpl.
        -- pose proof (Hprev prev eq_refl).
           rewrite lookup_delete_ne, lookup_insert_eq by lia. eauto.
        -- rewrite lookup_insert_eq. eauto.
Qed.

Lemma step_ok (e : Event) (v v' : View) : viewOk v -> step e v = Some v' -> viewOk v'.
Proof.
  intros Hv. destruct e as [s|id|id]; simpl.
  - intros [= <-]. apply setSettings_ok, Hv.
  - destruct (runs v !! id) as [c|] eqn:Hc; [|discriminate].
    destruct (phase c) eqn:Hph; try discriminate.
    intros [= <-]. apply (timerCallback_ok id c v Hv Hc Hph).
  - destruct (runs v !! id) as [c|] eqn:Hc; [|discriminate].
    destruct (phase c) eqn:Hph; try discriminate.
    intros [= <-]. apply (resume_ok id c v Hv Hc Hph).
Qed.

Lemma run_ok (es : list Event) (v v' : View) : viewOk v -> run es v = Some v' -> viewOk v'.
Proof.
  revert v. induction es as [|e es IH]; intros v Hv; simpl.
  - intros [= <-]. exact Hv.
  - destruct (step e v) as [v1|] eqn:Hstep; [|discriminate].
    apply IH. apply (step_ok e v v1 Hv Hstep).
Qed.

(** *** Superseded runs *)

Lemma setSettings_fields (s : StickerSettings) (v : View) :
  viewOk v ->
  page (setSettings s v) = page v /\
  produced (setSettings s v) = produced v /\
  shownBy (setSettings s v) = shownBy v /\
  stickerUrl (setSettings s v) = stickerUrl v /\
  active (setSettings s v) = Some (nextTimer v) /\
  runs (setSettings s v) !! nextTimer v =
    Some {| captured := s; cancelled := false; phase := Scheduled |}.
Proof.
  intros Hv. destruct (ok_active v Hv) as [a [ca [Ha _]]].
  unfold setSettings. simpl. rewrite Ha. simpl.
  repeat split. apply lookup_insert_eq.
Qed.

Lemma setSettings_discards (s : StickerSettings) (v : View) (a : nat) :
  viewOk v -> active v = Some a -> unsettled a v -> discarded a (setSettings s v).
Proof.
  intros Hv Ha [c [Hc Hph]].
  destruct (setSettings_fields s v Hv) as [Hpage [Hprod [Hshown [Hurl _]]]].
  destruct (unsettled_fresh v a c Hv Hc) as [Hnone Hnot];
    [destruct Hph; congruence|].
  pose proof (ok_timers v Hv a c Hc) as Hlt.
  destruct (setSettings_runs_keeps s v a a c Ha Hc) as [c' [Hc' [_ Hcan]]]; [lia|].
  rewrite decide_True in Hcan by reflexivity.
  unfold discarded. rewrite Hpage, Hprod, Hshown, Hurl.
  split; [exists c'; split; assumption|].
  split; [exact Hnot|].
  intros u Hu. congruence.
Qed.

Lemma step_discarded (e : Event) (v v' : View) (a : nat) :
  viewOk v -> discarded a v -> step e v = Some v' -> discarded a v'.
Proof.
  intros Hv [[ca [Hca Hcana]] [Hnot Hrel]].
  pose proof (ok_host v Hv) as Hhost.
  destruct e as [s|id|id]; simpl.
  - intros [= <-].
    destruct (setSettings_fields s v Hv) as [Hpage [Hprod [Hshown [Hurl _]]]].
    destruct (ok_active v Hv) as [a0 [c0 [Ha0 _]]].
    pose proof (ok_timers v Hv a ca Hca) as Hlt.
    destruct (setSettings_runs_keeps s v a0 a ca Ha0 Hca) as [c' [Hc' [_ Hcan]]]; [lia|].
    unfold discarded. rewrite Hpage, Hprod, Hshown, Hurl.
    split; [|split; assumption].
    exists c'. split; [exact Hc'|]. rewrite Hcan.
    destruct (decide (a0 = a)); [reflexivity | exact Hcana].
  - destruct (runs v !! id) as [c|] eqn:Hc; [|discriminate].
    destruct (phase c) eqn:Hph; try discriminate.
    intros [= <-]. unfold discarded, timerCallback. simpl.
    split; [|split; assumption].
    destruct (enter_keeps InFlight id _ _ _ Hca) as [c' [Hc' [Hcan _]]].
    exists c'. split; [exact Hc' | congruence].
  - destruct (runs v !! id) as [c|] eqn:Hc; [|discriminate].
    destruct (phase c) eqn:Hph; try discriminate.
    intros [= <-].
    destruct (enter_keeps Settled id _ _ _ Hca) as [c' [Hc' [Hcan _]]].
    assert (Hruns : exists c1, alter (enter Settled) id (runs v) !! a = Some c1 /\
                               cancelled c1 = true)
      by (exists c'; split; [exact Hc' | congruence]).
    assert (Hnew : stickerUrl v <> Some (nextUrl (page v))).
    { intros Hu. pose proof (held_below _ _ Hhost (ok_live v Hv _ Hu)). lia. }
    unfold discarded, resume.
    destruct (addStickerOutline_cases (cutout v) (captured c) (page v))
      as [[m ->]|[blob ->]].
    + simpl. split; [exact Hruns | split; assumption].
    + destruct (cancelled c) eqn:Hcan'; unfold revokeObjectURL; simpl.
      * split; [exact Hruns|]. split; [exact Hnot|].
        intros u Hu. apply lookup_insert_Some in Hu.
        destruct Hu as [[_ <-]|[_ Hu]].
        -- split; [apply lookup_delete_eq | exact Hnew].
        -- pose proof (ok_fresh v Hv a u Hu) as Hfresh.
           destruct (Hrel u Hu) as [Hgone Hnotu].
           rewrite lookup_delete_ne, lookup_insert_ne by lia.
           split; assumption.
      * assert (Hne : id <> a) by (intros ->; congruence).
        split; [exact Hruns|]. split; [congruence|].
        intros u Hu. rewrite lookup_insert_ne in Hu by exact Hne.
        pose proof (ok_fresh v Hv a u Hu) as Hfresh.
        destruct (Hrel u Hu) as [Hgone _].
        split; [|intros [= Heq]; lia].
        destruct (stickerUrl v) as [prev|]; simpl.
        -- apply lookup_delete_None. right. rewrite lookup_insert_ne by lia. exact Hgone.
        -- rewrite lookup_insert_ne by lia. exact Hgone.
Qed.

Lemma run_discarded (es : list Event) (v v' : View) (a : nat) :
  viewOk v -> discarded a v -> run es v = Some v' -> discarded a v'.
Proof.
  revert v. induction es as [|e es IH]; intros v Hv Hd; simpl.
  - intros [= <-]. exact Hd.
  - destruct (step e v) as [v1|] eqn:Hstep; [|discriminate].
    apply IH; [apply (step_ok e v v1 Hv Hstep) | apply (step_discarded e v v1 a Hv Hd Hstep)].
Qed.

(** *** No URL is left behind *)

Lemma step_leakFree (e : Event) (base : ObjectURL) (v v' : View) :
  viewOk v -> leakFree base v -> step e v = Some v' -> leakFree base v'.
Proof.
  intros Hv Hfree.
  destruct e as [s|id|id]; simpl.
  - intros [= <-].
    destruct (setSettings_fields s v Hv) as [Hpage [_ [_ [Hurl _]]]].
    unfold leakFree. rewrite Hpage, Hurl. exact Hfree.
  - destruct (runs v !! id) as [c|] eqn:Hc; [|discriminate].
    destruct (phase c); try discriminate.
    intros [= <-]. exact Hfree.
  - destruct (runs v !! id) as [c|] eqn:Hc; [|discriminate].
    destruct (phase c); try discriminate.
    intros [= <-]. unfold leakFree, resume.
    destruct (addStickerOutline_cases (cutout v) (captured c) (page v))
      as [[m ->]|[blob ->]].
    + exact Hfree.
    + destruct (cancelled c); unfold revokeObjectURL; simpl.
      * intros u Hbase Hheld.
        destruct (decide (nextUrl (page v) = u)) as [<-|Hne].
        -- rewrite lookup_delete_eq in Hheld. destruct Hheld as [? ?]. discriminate.
        -- rewrite lookup_delete_ne, lookup_insert_ne in Hheld by exact Hne.
           apply (Hfree u Hbase Hheld).
      * intros u Hbase Hheld.
        destruct (decide (nextUrl (page v) = u)) as [<-|Hne]; [reflexivity|].
        exfalso. unfold leakFree in Hfree.
        destruct (stickerUrl v) as [prev|]; simpl in Hheld.
        -- destruct (decide (prev = u)) as [->|Hnp].
           ++ rewrite lookup_delete_eq in Hheld. destruct Hheld as [? ?]. discriminate.
           ++ rewrite lookup_delete_ne, lookup_insert_ne in Hheld by assumption.
              specialize (Hfree u Hbase Hheld). congruence.
        -- rewrite lookup_insert_ne in Hheld by exact Hne.
           specialize (Hfree u Hbase Hheld). discriminate.
Qed.

Lemma run_leakFree (es : list Event) (base : ObjectURL) (v v' : View) :
  viewOk v -> leakFree base v -> run es v = Some v' -> leakFree base v'.
Proof.
  revert v. induction es as [|e es IH]; intros v Hv Hfree; simpl.
  - intros [= <-]. exact Hfree.
  - destruct (step e v) as [v1|] eqn:Hstep; [|discriminate].
    apply IH; [apply (step_ok e v v1 Hv Hstep) | apply (step_leakFree e base v v1 Hv Hfree Hstep)].
Qed.

Lemma mount_leakFree (cut : string) (h : Host) :
  hostOk h -> leakFree (nextUrl h) (mount cut h).
Proof.
  intros Hh u Hbase [b Hb]. simpl in Hb. rewrite Hh in Hb by exact Hbase. discriminate.
Qed.

(** *** The run that supersedes *)

Lemma setSettings_awaited (s : StickerSettings) (v : View) :
  viewOk v -> awaited (nextTimer v) s (stickerUrl v) (setSettings s v).
Proof.
  intros Hv.
  destruct (setSettings_fields s v Hv) as [_ [Hprod [_ [Hurl [Hact Hnew]]]]].
  unfold awaited. rewrite Hprod, Hurl, Hact, Hnew.
  split; [reflexivity|]. split; [eexists; split; reflexivity|].
  left. split; [reflexivity|].
  destruct (produced v !! nextTimer v) as [u|] eqn:Hp; [|reflexivity].
  destruct (ok_settled v Hv _ u Hp) as [c [Hc _]].
  pose proof (ok_timers v Hv _ c Hc). lia.
Qed.

Lemma step_awaited (e : Event) (b : nat) (s : StickerSettings) (old : option ObjectURL)
  (v v' : View) :
  viewOk v -> awaited b s old v -> isChange e = false -> step e v = Some v' ->
  awaited b s old v'.
Proof.
  intros Hv [Hact [Hcap Hshow]] He Hstep.
  pose proof (step_ok e v v' Hv Hstep) as Hv'.
  destruct e as [s'|id|id]; simpl in He, Hstep; [discriminate| |].
  - destruct (runs v !! id) as [c|] eqn:Hc; [|discriminate].
    destruct (phase c); try discriminate.
    injection Hstep as <-. unfold awaited, timerCallback. simpl.
    split; [exact Hact|]. split; [apply enter_captured; exact Hcap | exact Hshow].
  - destruct (runs v !! id) as [c|] eqn:Hc; [|discriminate].
    destruct (phase c) eqn:Hph; try discriminate.
    injection Hstep as <-.
    destruct (unsettled_fresh v id c Hv Hc) as [Hnone _]; [congruence|].
    assert (Hcan : cancelled c = if decide (id = b) then false else true).
    { destruct (decide (id = b)) as [->|Hne].
      - destruct (ok_active v Hv) as [a [ca [Ha [Hca Hcana]]]]. congruence.
      - apply (ok_superseded v Hv id c Hc). congruence. }
    pose proof (ok_live _ Hv') as Hlive. revert Hlive.
    unfold awaited, resume.
    destruct (addStickerOutline_cases (cutout v) (captured c) (page v))
      as [[m ->]|[blob ->]].
    + simpl. intros _.
      split; [exact Hact|]. split; [apply enter_captured; exact Hcap | exact Hshow].
    + rewrite Hcan. destruct (decide (id = b)) as [->|Hne]; simpl; intros Hlive.
      * split; [exact Hact|]. split; [apply enter_captured; exact Hcap|].
        right. exists (nextUrl (page v)).
        split; [apply lookup_insert_eq|]. split; [reflexivity|].
        split; [reflexivity | apply Hlive; reflexivity].
      * split; [exact Hact|]. split; [apply enter_captured; exact Hcap|].
        rewrite lookup_insert_ne by exact Hne.
        destruct Hshow as [Hold|[u [Hp [Hu [Hs _]]]]]; [left; exact Hold|].
        right. exists u. repeat split; try assumption. apply Hlive, Hu.
Qed.

Lemma run_awaited (es : list Event) (b : nat) (s : StickerSettings)
  (old : option ObjectURL) (v v' : View) :
  viewOk v -> awaited b s old v -> forallb (fun e => negb (isChange e)) es = true ->
  run es v = Some v' -> awaited b s old v'.
Proof.
  revert v. induction es as [|e es IH]; intros v Hv Haw Hes; simpl.
  - intros [= <-]. exact Haw.
  - simpl in Hes. apply andb_true_iff in Hes. destruct Hes as [He Hes].
    apply negb_true_iff in He.
    destruct (step e v) as [v1|] eqn:Hstep; [|discriminate].
    apply IH; [apply (step_ok e v v1 Hv Hstep) | | exact Hes].
    apply (step_awaited e b s old v v1 Hv Haw He Hstep).
Qed.

(** C9. Let the run [a] for the current settings be pending or in flight
    when the settings change to [sB].  Then, whatever happens afterwards, the
    view never shows what [a] produces, the URL [a] resolves with is revoked,
    and the page holds no URL handed out since the mount other than the one
    shown.  And as long as the settings do not change again, the view shows
    what it showed before, until the run started for [sB] resolves; from then
    on it shows the URL of that run, which the page holds. *)
Theorem superseded_generation (cut : string) (h : Host) (evs1 : list Event)
  (v1 : View) (a : nat) (sB : StickerSettings) :
  hostOk h ->
  run evs1 (mount cut h) = Some v1 ->
  active v1 = Some a ->
  unsettled a v1 ->
  (forall evs2 v2,
     run (SettingsChanged sB :: evs2) v1 = Some v2 ->
     shownBy v2 <> Some a /\
     (forall u, produced v2 !! a = Some u ->
                objectUrls (page v2) !! u = None /\ stickerUrl v2 <> Some u) /\
     (forall u, nextUrl h <= u -> is_Some (objectUrls (page v2) !! u) ->
                stickerUrl v2 = Some u)) /\
  (forall evs2 v2,
     forallb (fun e => negb (isChange e)) evs2 = true ->
     run (SettingsChanged sB :: evs2) v1 = Some v2 ->
     let b := nextTimer v1 in
     active v2 = Some b /\
     (exists c, runs v2 !! b = Some c /\ captured c = sB) /\
     ((stickerUrl v2 = stickerUrl v1 /\ produced v2 !! b = None) \/
      (exists u, produced v2 !! b = Some u /\ stickerUrl v2 = Some u /\
                 shownBy v2 = Some b /\ is_Some (objectUrls (page v2) !! u)))).
Proof.
  intros Hh Hrun1 Ha Hun.
  pose proof (run_ok evs1 _ v1 (mount_ok cut h Hh) Hrun1) as Hv1.
  pose proof (run_leakFree evs1 _ _ v1 (mount_ok cut h Hh) (mount_leakFree cut h Hh) Hrun1)
    as Hfree1.
  pose proof (setSettings_ok sB v1 Hv1) as Hv1'.
  split.
  - intros evs2 v2 Hrun2. simpl in Hrun2.
    pose proof (run_discarded evs2 _ v2 a Hv1' (setSettings_discards sB v1 a Hv1 Ha Hun) Hrun2)
      as [_ [Hnot Hrel]].
    split; [exact Hnot|]. split; [exact Hrel|].
    apply (run_leakFree evs2 (nextUrl h) (setSettings sB v1) v2 Hv1'); [|exact Hrun2].
    apply (step_leakFree (SettingsChanged sB) _ v1 _ Hv1 Hfree1). reflexivity.
  - intros evs2 v2 Hes Hrun2. simpl in Hrun2.
    apply (run_awaited evs2 (nextTimer v1) sB (stickerUrl v1) (setSettings sB v1) v2 Hv1'
             (setSettings_awaited sB v1 Hv1) Hes Hrun2).
Qed.

End Regeneration.

(** The default run is in flight when the width is changed to 12: nothing of
    it is shown after the change. *)
Lemma superseded_generation_witness :
  shownBy (@setSettings plainBrowser (withWidth 12 DEFAULT_SETTINGS)
             (timerCallback 1 (mount "blob:cutout" plainHost)))
  <> Some 1.
Proof.
  refine (proj1 (proj1 (@superseded_generation plainBrowser "blob:cutout" plainHost
                          [TimerFired 1] (timerCallback 1 (mount "blob:cutout" plainHost))
                          1 (withWidth 12 DEFAULT_SETTINGS) _ _ _ _) [] _ _)).
  - intros u _. apply lookup_empty.
  - reflexivity.
  - reflexivity.
  - eexists. split; [reflexivity|]. right. reflexivity.
  - reflexivity.
Defined.

(** ** The scenarios of the design document, run *)

Open Scope R_scope.


Example wobbly_canvas :
  wobbleExtra (withStyle wobbly DEFAULT_SETTINGS) = 36.8 /\
  pad (withStyle wobbly DEFAULT_SETTINGS) = 48.8 /\
  canvasWidth square (withStyle wobbly DEFAULT_SETTINGS) = 197.6.
Proof.
  assert (He : wobbleExtra (withStyle wobbly DEFAULT_SETTINGS) = 36.8).
  { unfold wobbleExtra. simpl. lra. }
  assert (Hp : pad (withStyle wobbly DEFAULT_SETTINGS) = 48.8).
  { unfold pad. rewrite He. simpl. rewrite Rmax_left; lra. }
  split; [exact He|]. split; [exact Hp|]. unfold canvasWidth. rewrite Hp.
  change (shadowPad (withStyle wobbly DEFAULT_SETTINGS)) with 0.
  change (img_width square) with 100. lra.
Qed.

Example default_radii : radiiFrom (outlineWidth DEFAULT_SETTINGS - 1) = [7; 5; 3; 1].
Proof.
  simpl outlineWidth.
  repeat (rewrite radiiFrom_unfold; destruct (Rgt_dec _ 0); [|lra]).
  rewrite radiiFrom_unfold. destruct (Rgt_dec _ 0); [lra|].
  repeat f_equal; lra.
Qed.

Close Scope R_scope.

(** The width is changed to 12 while the default generation is in flight;
    the default generation settles, then the new timer fires and the new
    generation settles: the view shows the second URL, and the page holds
    that URL only. *)
Example superseded_in_flight :
  let v := run [ TimerFired 1; SettingsChanged (withWidth 12 DEFAULT_SETTINGS);
                 GenerationSettled 1; TimerFired 2; GenerationSettled 2 ]
               (@mount plainBrowser "blob:cutout" plainHost) in
  option_map stickerUrl v = Some (Some 1) /\
  option_map shownBy v = Some (Some 2) /\
  option_map (fun v => produced v !! 1) v = Some (Some 0) /\
  option_map (fun v => dom (objectUrls (page v))) v = Some {[ 1 ]}.
Proof. repeat split; vm_compute; reflexivity. Qed.

(** * Further properties of the generator *)

Open Scope R_scope.

(** ** How the promise settles *)

(** A run rejects for one of three reasons, each with its own message, and
    then leaves the page exactly as it found it: no object URL is made. *)
Theorem addStickerOutline_rejects `{Browser} (url : string) (s : StickerSettings)
  (h : Host) (m : string) :
  fst (addStickerOutline url s h) = Rejected m ->
  snd (addStickerOutline url s h) = h /\
  ((decode h url = None /\ m = "Failed to load image"%string) \/
   (exists img, decode h url = Some img /\ contextAvailable h = false /\
                m = "Canvas context unavailable"%string) \/
   (exists img, decode h url = Some img /\ contextAvailable h = true /\
                toBlob (canvasWidth img s) (canvasHeight img s) (bitmap (render img s)) = None /\
                m = "Failed to create blob"%string)).
Proof.
  unfold addStickerOutline.
  destruct (decode h url) as [img|].
  - destruct (contextAvailable h); simpl.
    + destruct (toBlob _ _ _) as [blob|] eqn:Hblob; simpl; [discriminate|].
      intros [= <-]. split; [reflexivity|]. right. right. exists img. auto.
    + intros [= <-]. split; [reflexivity|]. right. left. exists img. auto.
  - simpl. intros [= <-]. split; [reflexivity|]. left. auto.
Qed.

Lemma addStickerOutline_rejects_witness :
  snd (@addStickerOutline plainBrowser "blob:cutout" DEFAULT_SETTINGS
         {| decode := fun _ => None; contextAvailable := true;
            objectUrls := ∅; nextUrl := 0%nat |}) =
  {| decode := fun _ => None; contextAvailable := true;
     objectUrls := ∅; nextUrl := 0%nat |}.
Proof.
  exact (proj1 (@addStickerOutline_rejects plainBrowser "blob:cutout" DEFAULT_SETTINGS
                  {| decode := fun _ => None; contextAvailable := true;
                     objectUrls := ∅; nextUrl := 0%nat |}
                  "Failed to load image" eq_refl)).
Defined.

(** A run that resolves hands out the next URL of the page, which was free,
    and changes nothing else: every URL the page held it still holds, with
    the same blob, and URLs are still handed out in order. *)
Theorem addStickerOutline_resolves_fresh `{Browser} (url : string) (s : StickerSettings)
  (h : Host) (u : ObjectURL) :
  hostOk h ->
  fst (addStickerOutline url s h) = Resolved u ->
  u = nextUrl h /\
  objectUrls h !! u = None /\
  is_Some (objectUrls (snd (addStickerOutline url s h)) !! u) /\
  (forall u', u' <> u ->
     objectUrls (snd (addStickerOutline url s h)) !! u' = objectUrls h !! u') /\
  hostOk (snd (addStickerOutline url s h)).
Proof.
  intros Hh. unfold addStickerOutline.
  destruct (decode h url) as [img|]; [|discriminate].
  destruct (contextAvailable h); simpl; [|discriminate].
  destruct (toBlob _ _ _) as [blob|]; simpl; [|discriminate].
  intros [= <-]. split; [reflexivity|].
  split; [apply Hh; apply Nat.le_refl|].
  split; [rewrite lookup_insert_eq; eauto|].
  split.
  - intros u' Hne. apply lookup_insert_ne. congruence.
  - intros u' Hu'. simpl in Hu'. simpl. rewrite lookup_insert_ne by lia.
    apply Hh. lia.
Qed.

Lemma addStickerOutline_resolves_fresh_witness :
  0%nat = @nextUrl plainBrowser plainHost.
Proof.
  refine (proj1 (@addStickerOutline_resolves_fresh plainBrowser "blob:cutout"
                   DEFAULT_SETTINGS plainHost 0%nat _ eq_refl)).
  intros u _. apply lookup_empty.
Defined.

(** ** The wave field *)

Lemma wobble_within (s : StickerSettings) (a : R) :
  nonNegativeWaves s ->
  Rabs (wobble s a) <= masterAmp s * (amp (wave1 s) + amp (wave2 s) + amp (wave3 s)).
Proof.
  intros [Hm [H1 [H2 H3]]]. unfold wobble.
  pose proof (SIN_bound (a * freq (wave1 s))) as [Hs1 Hs1'].
  pose proof (COS_bound (a * freq (wave2 s))) as [Hc2 Hc2'].
  pose proof (SIN_bound (a * freq (wave3 s) + 1.5)) as [Hs3 Hs3'].
  set (x := sin (a * freq (wave1 s))) in *.
  set (y := cos (a * freq (wave2 s))) in *.
  set (z := sin (a * freq (wave3 s) + 1.5)) in *.
  assert (Hx : - amp (wave1 s) <= x * amp (wave1 s) <= amp (wave1 s)) by (split; nra).
  assert (Hy : - amp (wave2 s) <= y * amp (wave2 s) <= amp (wave2 s)) by (split; nra).
  assert (Hz : - amp (wave3 s) <= z * amp (wave3 s) <= amp (wave3 s)) by (split; nra).
  apply Rabs_le. split; nra.
Qed.

(** With non-negative amplitudes the perturbation stays within
    [masterAmp * (amp1 + amp2 + amp3)], the bound the padding is sized for. *)
Theorem wobble_bound (s : StickerSettings) (a : R) :
  nonNegativeWaves s ->
  Rabs (wobble s a) <= masterAmp s * (amp (wave1 s) + amp (wave2 s) + amp (wave3 s)).
Proof. apply wobble_within. Qed.

Lemma wobble_bound_witness :
  Rabs (wobble DEFAULT_SETTINGS 1) <=
  masterAmp DEFAULT_SETTINGS *
  (amp (wave1 DEFAULT_SETTINGS) + amp (wave2 DEFAULT_SETTINGS) + amp (wave3 DEFAULT_SETTINGS)).
Proof.
  apply wobble_bound. unfold nonNegativeWaves. simpl. repeat split; lra.
Defined.

(** With [masterAmp] zero, or the three amplitudes zero, a wave outline is a
    stack of plain circles: every ring is stamped at its own radius, and no
    extra padding is reserved. *)
Theorem flat_waves (img : Image) (s : StickerSettings) :
  masterAmp s = 0 \/
  (amp (wave1 s) = 0 /\ amp (wave2 s) = 0 /\ amp (wave3 s) = 0) ->
  (forall a, wobble s a = 0) /\
  wobbleExtra s = 0 /\
  waveStamps img s =
    flat_map (fun r => ring img s (fun _ => r))
             (outlineWidth s :: radiiFrom (outlineWidth s)).
Proof.
  intros Hflat.
  assert (Hw : forall a, wobble s a = 0).
  { intros a. unfold wobble. destruct Hflat as [->|[-> [-> ->]]]; lra. }
  assert (Hmax : Rmax 0.05 1 = 1) by (apply Rmax_right; lra).
  split; [exact Hw|]. split.
  - unfold wobbleExtra. destruct (negb (isSolid (outlineStyle s))); [|reflexivity].
    destruct Hflat as [->|[-> [-> ->]]]; lra.
  - unfold waveStamps. cbn [flat_map]. f_equal.
    + unfold ring. apply map_ext. intros i. cbv zeta. unfold outerRadius.
      rewrite Hw, Rplus_0_r, Hmax, Rmult_1_r. reflexivity.
    + apply flat_map_ext. intros rad. unfold ring. apply map_ext. intros i.
      cbv zeta. unfold innerRadius. rewrite Hw, Rmult_0_l, Rplus_0_r, Hmax, Rmult_1_r.
      reflexivity.
Qed.

Lemma flat_waves_witness :
  wobbleExtra {| outlineWidth := 8; outlineColor := white; outlineStyle := wavy;
                 wave1 := {| freq := 2; amp := 1.2 |};
                 wave2 := {| freq := 3.5; amp := 0.8 |};
                 wave3 := {| freq := 7; amp := 0.3 |};
                 masterAmp := 0; shadowStyle := none |} = 0.
Proof.
  refine (proj1 (proj2 (flat_waves square _ _))). left. reflexivity.
Defined.

(** ** The rings of the wave outline *)

(** The first loop of the wave branch and the first pass of its nested loop
    draw the same ring: the outermost ring is stamped twice, stamp for
    stamp, before the rings from [outlineWidth - 2] inwards. *)
Theorem wave_outer_ring_twice (img : Image) (s : StickerSettings) :
  outlineStyle s <> solid -> outlineWidth s > 0 ->
  waveOutline img s =
    ring img s (outerRadius s) ++
    ring img s (outerRadius s) ++
    flat_map (fun rad => ring img s (innerRadius s rad)) (radiiFrom (outlineWidth s - 2)) ++
    fillOutline img s.
Proof.
  intros Hst Hw. rewrite waveOutline_runs by assumption.
  unfold waveStamps. rewrite (radiiFrom_unfold (outlineWidth s)).
  destruct (Rgt_dec (outlineWidth s) 0) as [_|Hn]; [|contradiction].
  cbn [flat_map]. rewrite <- !app_assoc. do 2 f_equal.
  unfold ring. apply map_ext. intros i. cbv zeta. unfold innerRadius, outerRadius.
  replace (outlineWidth s / outlineWidth s) with 1 by (field; lra).
  rewrite Rmult_1_r. reflexivity.
Qed.

Lemma wave_outer_ring_twice_witness :
  waveOutline square (withStyle wobbly DEFAULT_SETTINGS) =
  ring square (withStyle wobbly DEFAULT_SETTINGS) (outerRadius (withStyle wobbly DEFAULT_SETTINGS)) ++
  ring square (withStyle wobbly DEFAULT_SETTINGS) (outerRadius (withStyle wobbly DEFAULT_SETTINGS)) ++
  flat_map (fun rad => ring square (withStyle wobbly DEFAULT_SETTINGS)
                            (innerRadius (withStyle wobbly DEFAULT_SETTINGS) rad))
           (radiiFrom (outlineWidth (withStyle wobbly DEFAULT_SETTINGS) - 2)) ++
  fillOutline square (withStyle wobbly DEFAULT_SETTINGS).
Proof.
  apply wave_outer_ring_twice; [discriminate | simpl; lra].
Defined.

(** ** Stamps and the canvas *)










(** ** How many stamps *)

Lemma radiiFrom_nonpositive (r0 : R) : r0 <= 0 -> radiiFrom r0 = [].
Proof.
  intros Hr. rewrite radiiFrom_unfold. destruct (Rgt_dec r0 0); [lra | reflexivity].
Qed.

Lemma radiiFrom_positive (r0 : R) : r0 > 0 -> radiiFrom r0 = r0 :: radiiFrom (r0 - 2).
Proof.
  intros Hr. rewrite radiiFrom_unfold. destruct (Rgt_dec r0 0); [reflexivity | contradiction].
Qed.

(** From a whole number [k] the countdown makes [(k + 1) / 2] rounds. *)
Lemma radiiFrom_INR_length (k : nat) : length (radiiFrom (INR k)) = ((k + 1) / 2)%nat.
Proof.
  assert (Hboth : length (radiiFrom (INR k)) = ((k + 1) / 2)%nat /\
                  length (radiiFrom (INR (S k))) = ((S k + 1) / 2)%nat).
  { induction k as [|k [IH0 IH1]].
    - split.
      + rewrite radiiFrom_nonpositive by (simpl; lra). reflexivity.
      + rewrite radiiFrom_positive by (simpl; lra).
        rewrite radiiFrom_nonpositive by (simpl; lra). reflexivity.
    - split; [exact IH1|].
      rewrite radiiFrom_positive by (pose proof (pos_INR k); rewrite !S_INR; lra).
      replace (INR (S (S k)) - 2) with (INR k) by (rewrite !S_INR; lra).
      cbn [length]. rewrite IH0.
      replace (S (S k) + 1)%nat with (k + 1 + 1 * 2)%nat by lia.
      rewrite Nat.div_add by lia. lia. }
  exact (proj1 Hboth).
Qed.

Lemma rings_length (img : Image) (s : StickerSettings) (radius : R -> R -> R) (l : list R) :
  length (flat_map (fun r => ring img s (radius r)) l) = (steps * length l)%nat.
Proof.
  induction l as [|r l IH]; cbn [flat_map length].
  - lia.
  - rewrite length_app, ring_length, IH. lia.
Qed.

Lemma stamps_length (img : Image) (s : StickerSettings) (n : nat) :
  outlineWidth s = INR n -> (1 <= n)%nat ->
  length (solidStamps img s) = (72 * (1 + n / 2))%nat /\
  length (waveStamps img s) = (72 * (1 + (n + 1) / 2))%nat.
Proof.
  intros Hw Hn. unfold solidStamps, waveStamps. cbv zeta.
  rewrite !length_app, !ring_length.
  rewrite (rings_length img s (fun r _ => r)), (rings_length img s (innerRadius s)).
  rewrite Hw. destruct n as [|m]; [lia|].
  replace (INR (S m) - 1) with (INR m) by (rewrite S_INR; lra).
  rewrite !radiiFrom_INR_length. unfold steps.
  replace (m + 1)%nat with (S m) by lia. lia.
Qed.

(** For a whole-number width [n >= 1], as the thickness slider gives it, the
    solid outline is [72 * (1 + n / 2)] stamps and a wave outline
    [72 * (1 + (n + 1) / 2)] stamps (divisions rounded down). *)
Theorem stamp_counts (img : Image) (s : StickerSettings) (n : nat) :
  outlineWidth s = INR n -> (1 <= n)%nat ->
  length (solidStamps img s) = (72 * (1 + n / 2))%nat /\
  length (waveStamps img s) = (72 * (1 + (n + 1) / 2))%nat.
Proof. apply stamps_length. Qed.

Lemma stamp_counts_witness :
  length (solidStamps square DEFAULT_SETTINGS) = (72 * (1 + 8 / 2))%nat /\
  length (waveStamps square DEFAULT_SETTINGS) = (72 * (1 + (8 + 1) / 2))%nat.
Proof.
  apply (stamp_counts square DEFAULT_SETTINGS 8); [simpl; lra | lia].
Defined.

(** ** The drawing state around the outline *)

Lemma exec_keeps_shadowColor `{Browser} (img : Image) (c : Context2D) (op : CanvasOp) :
  keepsShadowColor op -> shadowColor (exec img c op) = shadowColor c.
Proof. destruct op; simpl; intros Hop; try reflexivity. contradiction. Qed.

Lemma execAll_keeps_shadowColor `{Browser} (img : Image) (ops : list CanvasOp) (c : Context2D) :
  Forall keepsShadowColor ops -> shadowColor (execAll img ops c) = shadowColor c.
Proof.
  intros Hops. revert c. induction Hops as [|op ops Hop _ IH]; intros c.
  - reflexivity.
  - unfold execAll in *. cbn [fold_left]. rewrite IH. apply exec_keeps_shadowColor, Hop.
Qed.

Lemma draws_keep_shadowColor (ops : list CanvasOp) :
  Forall (fun op => exists dx dy, op = DrawImage dx dy) ops -> Forall keepsShadowColor ops.
Proof. apply List.Forall_impl. intros op [dx [dy ->]]. exact I. Qed.

Lemma outline_keeps_shadowColor (img : Image) (s : StickerSettings) :
  Forall keepsShadowColor (solidOutline img s ++ waveOutline img s).
Proof.
  assert (Hfill : Forall keepsShadowColor (fillOutline img s))
    by (unfold fillOutline; repeat constructor).
  apply Forall_app. split.
  - unfold solidOutline. destruct (isSolid (outlineStyle s) && gtb (outlineWidth s) 0);
      [|constructor].
    apply Forall_app. split; [|exact Hfill].
    apply draws_keep_shadowColor. unfold solidStamps.
    apply Forall_app. split; [apply ring_draws | apply (rings_draw img s (fun r _ => r))].
  - unfold waveOutline. destruct (negb (isSolid (outlineStyle s)) && gtb (outlineWidth s) 0);
      [|constructor].
    apply Forall_app. split; [|exact Hfill].
    apply draws_keep_shadowColor. unfold waveStamps.
    apply Forall_app. split; [apply ring_draws | apply (rings_draw img s (innerRadius s))].
Qed.

Lemma exec_keeps_composite `{Browser} (img : Image) (c : Context2D) (op : CanvasOp) :
  (forall o, op <> SetGlobalCompositeOperation o) ->
  globalCompositeOperation (exec img c op) = globalCompositeOperation c.
Proof. destruct op; simpl; intros Hop; try reflexivity. exfalso. eapply Hop. reflexivity. Qed.

Lemma execAll_keeps_composite `{Browser} (img : Image) (ops : list CanvasOp) (c : Context2D) :
  Forall (fun op => forall o, op <> SetGlobalCompositeOperation o) ops ->
  globalCompositeOperation (execAll img ops c) = globalCompositeOperation c.
Proof.
  intros Hops. revert c. induction Hops as [|op ops Hop _ IH]; intros c.
  - reflexivity.
  - unfold execAll in *. cbn [fold_left]. rewrite IH. apply exec_keeps_composite, Hop.
Qed.

Lemma outline_ends_source_over `{Browser} (img : Image) (s : StickerSettings) :
  globalCompositeOperation (execAll img (solidOutline img s ++ waveOutline img s) newContext)
  = SourceOver.
Proof.
  assert (Hfill : forall c, globalCompositeOperation (execAll img (fillOutline img s) c)
                            = SourceOver) by (intros c; reflexivity).
  unfold solidOutline, waveOutline.
  destruct (gtb (outlineWidth s) 0); rewrite ?andb_true_r, ?andb_false_r.
  - destruct (isSolid (outlineStyle s)); cbn [negb].
    + rewrite app_nil_r, execAll_app. apply Hfill.
    + rewrite app_nil_l, execAll_app. apply Hfill.
  - reflexivity.
Qed.

(** The outline is drawn without a shadow, whatever the preset: at every
    point of the outline branch the shadow colour is still transparent.  The
    cutout is then drawn in source-over mode, and the generator leaves the
    context in source-over mode with the shadow colour cleared. *)
Theorem drawing_state `{Browser} (img : Image) (s : StickerSettings) :
  (forall pre post,
     solidOutline img s ++ waveOutline img s = pre ++ post ->
     shadowColor (execAll img pre newContext) = transparent) /\
  globalCompositeOperation
    (execAll img (solidOutline img s ++ waveOutline img s ++ shadowOps s) newContext)
  = SourceOver /\
  globalCompositeOperation (render img s) = SourceOver /\
  shadowColor (render img s) = transparent.
Proof.
  assert (Hshadow : Forall (fun op => forall o, op <> SetGlobalCompositeOperation o)
                           (shadowOps s ++ finalDraw img s)).
  { apply Forall_app. split.
    - unfold shadowOps. destruct (shadowStyle s); repeat constructor; discriminate.
    - unfold finalDraw, drawAt. repeat constructor; discriminate. }
  apply Forall_app in Hshadow. destruct Hshadow as [Hsh Hfin].
  split; [|split; [|split]].
  - intros pre post Heq. pose proof (outline_keeps_shadowColor img s) as Hkeep.
    rewrite Heq in Hkeep. apply Forall_app in Hkeep. destruct Hkeep as [Hpre _].
    rewrite execAll_keeps_shadowColor by exact Hpre. reflexivity.
  - rewrite app_assoc, execAll_app, execAll_keeps_composite by exact Hsh.
    apply outline_ends_source_over.
  - unfold render, drawingOps.
    rewrite app_assoc, execAll_app, execAll_app.
    rewrite execAll_keeps_composite by exact Hfin.
    rewrite execAll_keeps_composite by exact Hsh.
    apply outline_ends_source_over.
  - unfold render, drawingOps.
    rewrite !app_assoc, execAll_app. reflexivity.
Qed.

(** ** The floor of the padding *)

(** With non-negative waves the padding is [outlineWidth + wobbleExtra + 4]
    for every width that is not negative, and the floor of 4 is reached for
    no other widths than those of zero or less, for which nothing is
    outlined. *)
Theorem pad_floor_reached (s : StickerSettings) :
  nonNegativeWaves s ->
  (0 <= outlineWidth s -> pad s = outlineWidth s + wobbleExtra s + 4) /\
  (pad s = 4 <-> outlineWidth s <= 0).
Proof.
  intros [Hm [H1 [H2 H3]]].
  set (B := masterAmp s * (amp (wave1 s) + amp (wave2 s) + amp (wave3 s))).
  assert (HB : 0 <= B) by (unfold B; apply Rmult_le_pos; lra).
  assert (Hextra : wobbleExtra s = 0 \/ wobbleExtra s = outlineWidth s * B).
  { unfold wobbleExtra, B. destruct (negb (isSolid (outlineStyle s))); [right; lra | left; reflexivity]. }
  unfold pad. split.
  - intros Hw. apply Rmax_left. destruct Hextra as [->| ->]; nra.
  - split.
    + intros Hpad. destruct (Rle_dec (outlineWidth s) 0) as [Hle|Hgt]; [exact Hle|].
      exfalso. pose proof (Rmax_l (outlineWidth s + wobbleExtra s + 4) 4) as Hl.
      rewrite Hpad in Hl. destruct Hextra as [He|He]; rewrite He in Hl; nra.
    + intros Hw. apply Rmax_right. destruct Hextra as [->| ->]; nra.
Qed.

Lemma pad_floor_reached_witness :
  pad (withWidth 0 DEFAULT_SETTINGS) = 4 <-> outlineWidth (withWidth 0 DEFAULT_SETTINGS) <= 0.
Proof.
  refine (proj2 (pad_floor_reached (withWidth 0 DEFAULT_SETTINGS) _)).
  unfold nonNegativeWaves. simpl. repeat split; lra.
Defined.

(** * The customize panel *)

(** Picking an outline style sets the style and nothing else of the width,
    the colour and the shadow.  A wave style loads its preset into the three
    waves and [masterAmp], whatever they were tuned to; [solid] leaves them
    as they are.  Picking the same style again changes nothing more. *)
Theorem pick_style (v : OutlineStyle) (s : StickerSettings) :
  let s' := panelStep s (PickStyle v) in
  outlineStyle s' = v /\
  outlineWidth s' = outlineWidth s /\
  outlineColor s' = outlineColor s /\
  shadowStyle s' = shadowStyle s /\
  match WAVE_DEFAULTS v with
  | Some d => wave1 s' = preset_wave1 d /\ wave2 s' = preset_wave2 d /\
              wave3 s' = preset_wave3 d /\ masterAmp s' = preset_masterAmp d
  | None => v = solid /\ wave1 s' = wave1 s /\ wave2 s' = wave2 s /\
            wave3 s' = wave3 s /\ masterAmp s' = masterAmp s
  end /\
  panelStep s' (PickStyle v) = s'.
Proof.
  destruct v; cbv zeta; unfold panelStep, applyUpdates, handle; simpl;
    repeat split; reflexivity.
Qed.

(** The padding each style starts with, for a width [w >= 0]: [w + 4] for
    solid, [5.6 w + 4] for wobbly, [11.5 w + 4] for chaotic and
    [4.9 w + 4] for wavy. *)
Theorem preset_padding (v : OutlineStyle) (s : StickerSettings) :
  0 <= outlineWidth s ->
  pad (panelStep s (PickStyle v)) =
  match v with
  | solid => outlineWidth s + 4
  | wobbly => 5.6 * outlineWidth s + 4
  | chaotic => 11.5 * outlineWidth s + 4
  | wavy => 4.9 * outlineWidth s + 4
  end.
Proof.
  intros Hw. unfold pad, wobbleExtra.
  destruct v; unfold panelStep, applyUpdates, handle; simpl;
    rewrite Rmax_left by lra; lra.
Qed.

Lemma preset_padding_witness :
  pad (panelStep DEFAULT_SETTINGS (PickStyle chaotic)) =
  11.5 * outlineWidth DEFAULT_SETTINGS + 4.
Proof. apply (preset_padding chaotic DEFAULT_SETTINGS). simpl. lra. Defined.

Lemma default_inRange : inRange DEFAULT_SETTINGS.
Proof.
  split; [exists 8%nat; split; [lia | simpl; lra]|].
  split; [simpl; lra|].
  intros k. destruct k; simpl; lra.
Qed.

Lemma panelStep_inRange (s : StickerSettings) (e : PanelEvent) :
  inRange s -> fromPanel e -> inRange (panelStep s e).
Proof.
  intros [Hw [Hm Hk]] He.
  pose proof (Hk key_wave1) as [Hf1 Ha1]. pose proof (Hk key_wave2) as [Hf2 Ha2].
  pose proof (Hk key_wave3) as [Hf3 Ha3]. simpl in Hf1, Ha1, Hf2, Ha2, Hf3, Ha3.
  unfold inRange.
  destruct e as [v|c|st|v|k v|k v|sh]; try destruct k; try destruct st;
    unfold panelStep, applyUpdates, handle; simpl in He |- *;
    (split; [assumption|]); (split; [assumption || lra|]);
    intros k'; destruct k'; simpl; split; assumption || lra.
Qed.

(** Whatever the user does in the panel, starting from the default settings,
    the settings stay within the ranges of the sliders: a whole-number width
    of at most 20, [masterAmp] in 0..5, amplitudes in 0..2, and frequencies
    from 0.5 to 20 (30 for the third wave).  The presets lie within these
    ranges too. *)
Theorem panel_keeps_ranges (es : list PanelEvent) :
  Forall fromPanel es -> inRange (fold_left panelStep es DEFAULT_SETTINGS).
Proof.
  intros Hes. generalize default_inRange. generalize DEFAULT_SETTINGS.
  induction Hes as [|e es He _ IH]; intros s Hs; simpl.
  - exact Hs.
  - apply IH. apply panelStep_inRange; assumption.
Qed.

Lemma panel_keeps_ranges_witness :
  inRange (fold_left panelStep [PickStyle chaotic; Thickness 20; Amp key_wave2 2]
                     DEFAULT_SETTINGS).
Proof.
  apply panel_keeps_ranges.
  apply List.Forall_cons; [exact I|].
  apply List.Forall_cons; [exists 20%nat; split; [lia | simpl; lra]|].
  apply List.Forall_cons; [simpl; lra|].
  apply List.Forall_nil.
Defined.







(** * Dragging the preview *)

Open Scope R_scope.

Lemma moves_ignored (points : list (R * R)) (p : Preview) :
  dragRef p = None -> fold_left pointer (movesThrough points) p = p.
Proof.
  intros Hp. induction points as [|q points IH]; simpl.
  - reflexivity.
  - unfold onPointerMove. rewrite Hp. exact IH.
Qed.

Lemma moves_keep_start (points : list (R * R)) (p : Preview) :
  dragRef (fold_left pointer (movesThrough points) p) = dragRef p.
Proof.
  revert p. induction points as [|q points IH]; intros p; simpl.
  - reflexivity.
  - rewrite IH. unfold onPointerMove. destruct (dragRef p) eqn:Hd; [reflexivity | exact Hd].
Qed.

(** A drag moves the preview by the displacement of the pointer between the
    press and the last move, whatever the path in between; moving back to
    where the press was puts the preview back.  Moves with no button
    pressed, before a press or after the release, do not move it. *)
Theorem drag_translates (p : Preview) (a b c d : R) (path after : list (R * R)) :
  let dragged :=
    fold_left pointer (PointerDown a b :: movesThrough path ++ [PointerMove c d]) p in
  posX dragged = posX p + (c - a) /\
  posY dragged = posY p + (d - b) /\
  (c = a -> d = b -> posX dragged = posX p /\ posY dragged = posY p) /\
  fold_left pointer (PointerUp :: movesThrough after) dragged = onPointerUp dragged /\
  (dragRef p = None -> fold_left pointer (movesThrough after) p = p).
Proof.
  cbv zeta. cbn [fold_left pointer]. rewrite fold_left_app. cbn [fold_left pointer].
  pose proof (moves_keep_start path (onPointerDown a b p)) as Hstart.
  set (q := fold_left pointer (movesThrough path) (onPointerDown a b p)) in *.
  unfold onPointerMove at 1 2 3 4. rewrite Hstart. simpl.
  split; [reflexivity|]. split; [reflexivity|].
  split; [intros -> ->; split; lra|].
  split; [|apply moves_ignored].
  apply moves_ignored. reflexivity.
Qed.

Close Scope R_scope.

(** * The colour picker *)

(** Exactly one swatch carries the selection ring: the preset whose colour
    is the current value, or the custom swatch when the value is no
    preset. *)
Theorem one_swatch_ringed (value : string) :
  length (ringedPresets value) + (if isCustom value then 1 else 0) = 1.
Proof.
  unfold ringedPresets, isCustom, COLOR_PRESETS.
  cbn [List.filter existsb preset_color].
  repeat match goal with
         | |- context [String.eqb ?c value] =>
             destruct (String.eqb_spec c value) as [<-|?]; [reflexivity|]
         end.
  reflexivity.
Qed.

(** Picking a preset rings that preset and no other, and not the custom
    swatch. *)
Theorem preset_pick_ringed (p : ColorPreset) :
  In p COLOR_PRESETS ->
  ringedPresets (preset_color p) = [p] /\ isCustom (preset_color p) = false.
Proof.
  unfold COLOR_PRESETS. simpl.
  intros Hin. repeat (destruct Hin as [<-|Hin]; [split; reflexivity|]). contradiction.
Qed.

Lemma preset_pick_ringed_witness :
  ringedPresets "#3b82f6" = [ {| preset_color := "#3b82f6"; preset_label := "Blue" |} ].
Proof.
  refine (proj1 (preset_pick_ringed {| preset_color := "#3b82f6"; preset_label := "Blue" |} _)).
  simpl. tauto.
Defined.

(** * More on the regeneration effect *)

Close Scope R_scope.

Section Debounce.
Context `{Browser}.

Lemma unschedule_phase (c : Closure) :
  phase (unschedule c) = match phase c with Scheduled => Cleared | p => p end.
Proof. unfold unschedule. destruct (phase c) eqn:Hp; simpl; rewrite ?Hp; reflexivity. Qed.

(** The timers after [setSettings], with their phases: the new run is
    scheduled, the timer of the last run is cleared if it was pending, and no
    other run changes phase. *)
Lemma setSettings_phase (s : StickerSettings) (v : View) (a id : nat) :
  active v = Some a -> debounceRef v = Some a ->
  runs (setSettings s v) !! id =
  if decide (nextTimer v = id)
  then Some {| captured := s; cancelled := false; phase := Scheduled |}
  else if decide (a = id)
       then (fun c => unschedule (unschedule (cancel c))) <$> runs v !! id
       else runs v !! id.
Proof.
  intros Ha Hd. unfold setSettings. simpl. rewrite Ha. simpl. rewrite Hd.
  rewrite lookup_insert. destruct (decide (nextTimer v = id)) as [_|_]; [reflexivity|].
  rewrite !clearDebounce_lookup, lookup_alter.
  destruct (decide (a = id)) as [->|Hne].
  - rewrite !(decide_True (P := Some id = Some id)) by reflexivity.
    destruct (runs v !! id); reflexivity.
  - rewrite !(decide_False (P := Some a = Some id)) by congruence. reflexivity.
Qed.

Lemma mount_debounceOk (cut : string) (h : Host) : debounceOk (mount cut h).
Proof.
  unfold mount, effect. constructor; simpl.
  - reflexivity.
  - intros id c Hc _. apply lookup_insert_Some in Hc.
    destruct Hc as [[<- _]|[_ Hc]]; [reflexivity|].
    rewrite lookup_empty in Hc. discriminate.
  - intros id c [= <-]. rewrite lookup_insert_eq. intros [= <-]. reflexivity.
  - intros id c [= <-]. rewrite lookup_insert_eq. intros [= <-]. discriminate.
  - intros id c [= <-]. rewrite lookup_insert_eq. intros [= <-]. discriminate.
Qed.

Lemma setSettings_debounceOk (s : StickerSettings) (v : View) :
  viewOk v -> debounceOk v -> debounceOk (setSettings s v).
Proof.
  intros Hv Hd. destruct (ok_active v Hv) as [a [ca [Ha [Hca _]]]].
  pose proof (db_ref v Hd) as Href. rewrite Ha in Href.
  pose proof (setSettings_phase s v a) as Hruns.
  assert (Hfields : debounceRef (setSettings s v) = Some (nextTimer v) /\
                    active (setSettings s v) = Some (nextTimer v) /\
                    settings (setSettings s v) = s).
  { unfold setSettings. simpl. rewrite Ha. simpl. repeat split. }
  destruct Hfields as [Hnewref [Hact Hset]].
  constructor; rewrite ?Hnewref, ?Hact, ?Hset.
  - reflexivity.
  - intros id c Hc Hph. rewrite (Hruns id Ha Href) in Hc.
    destruct (decide (nextTimer v = id)) as [->|Hnew]; [reflexivity|]. exfalso.
    destruct (decide (a = id)) as [->|Hne].
    + destruct (runs v !! id) as [c0|]; simpl in Hc; [|discriminate].
      injection Hc as <-. rewrite !unschedule_phase in Hph. simpl in Hph.
      destruct (phase c0); discriminate.
    + pose proof (db_single v Hd id c Hc Hph). congruence.
  - intros id c [= <-] Hc. rewrite (Hruns _ Ha Href), decide_True in Hc by reflexivity.
    injection Hc as <-. reflexivity.
  - intros id c [= <-] Hc. rewrite (Hruns _ Ha Href), decide_True in Hc by reflexivity.
    injection Hc as <-. discriminate.
  - intros id c [= <-] Hc. rewrite (Hruns _ Ha Href), decide_True in Hc by reflexivity.
    injection Hc as <-. discriminate.
Qed.

Lemma timerCallback_debounceOk (id0 : nat) (c0 : Closure) (v : View) :
  debounceOk v -> runs v !! id0 = Some c0 -> phase c0 = Scheduled ->
  debounceOk (timerCallback id0 v).
Proof.
  intros Hd Hc0 Hph0. pose proof (db_single v Hd id0 c0 Hc0 Hph0) as Hact.
  constructor; simpl.
  - apply (db_ref v Hd).
  - intros id c Hc Hph. apply enter_Some in Hc.
    destruct Hc as [c1 [Hc1 [_ [Hsame Hnew]]]].
    destruct (decide (id = id0)) as [->|Hne].
    + rewrite Hnew in Hph by reflexivity. discriminate.
    + rewrite (Hsame Hne) in Hph. apply (db_single v Hd id c1 Hc1 Hph).
  - intros id c Ha Hc. apply lookup_alter_Some in Hc.
    destruct Hc as [[-> [c1 [Hc1 ->]]]|[_ Hc]].
    + simpl. apply (db_captured v Hd id c1 Ha Hc1).
    + apply (db_captured v Hd id c Ha Hc).
  - reflexivity.
  - intros id c Ha Hc Hph. exfalso.
    assert (id = id0) by congruence. subst id.
    apply enter_Some in Hc. destruct Hc as [c1 [_ [_ [_ Hnew]]]].
    rewrite Hnew in Hph by reflexivity. discriminate.
Qed.

Lemma resume_debounceOk (id0 : nat) (c0 : Closure) (v : View) :
  viewOk v -> debounceOk v -> runs v !! id0 = Some c0 -> phase c0 = InFlight ->
  debounceOk (resume id0 c0 v).
Proof.
  intros Hv Hd Hc0 Hph0.
  destruct (ok_active v Hv) as [a [ca [Ha [Hca Hcana]]]].
  assert (Hcan : cancelled c0 = if decide (id0 = a) then false else true).
  { destruct (decide (id0 = a)) as [->|Hne]; [congruence|].
    apply (ok_superseded v Hv id0 c0 Hc0). congruence. }
  assert (Hfields : debounceRef (resume id0 c0 v) = debounceRef v /\
                    active (resume id0 c0 v) = active v /\
                    settings (resume id0 c0 v) = settings v /\
                    runs (resume id0 c0 v) = alter (enter Settled) id0 (runs v) /\
                    regenerating (resume id0 c0 v) =
                      if cancelled c0 then regenerating v else false).
  { unfold resume.
    destruct (addStickerOutline_cases (cutout v) (captured c0) (page v))
      as [[m ->]|[blob ->]]; [simpl; repeat split|].
    destruct (cancelled c0); simpl; repeat split. }
  destruct Hfields as [Href [Hact [Hset [Hruns Hreg]]]].
  constructor; rewrite ?Href, ?Hact, ?Hset, ?Hruns, ?Hreg.
  - apply (db_ref v Hd).
  - intros id c Hc Hph. apply enter_Some in Hc.
    destruct Hc as [c1 [Hc1 [_ [Hsame Hnew]]]].
    destruct (decide (id = id0)) as [->|Hne].
    + rewrite Hnew in Hph by reflexivity. discriminate.
    + rewrite (Hsame Hne) in Hph. apply (db_single v Hd id c1 Hc1 Hph).
  - intros id c Hida Hc. apply lookup_alter_Some in Hc.
    destruct Hc as [[-> [c1 [Hc1 ->]]]|[_ Hc]].
    + simpl. apply (db_captured v Hd id c1 Hida Hc1).
    + apply (db_captured v Hd id c Hida Hc).
  - intros id c Hida Hc Hph. rewrite Hcan.
    assert (id = a) by congruence. subst id.
    destruct (decide (id0 = a)) as [->|Hne].
    + apply enter_Some in Hc. destruct Hc as [c1 [_ [_ [_ Hnew]]]].
      rewrite Hnew in Hph by reflexivity. discriminate.
    + apply enter_Some in Hc. destruct Hc as [c1 [Hc1 [_ [Hsame _]]]].
      rewrite Hsame in Hph by congruence.
      apply (db_busy v Hd a c1 Ha Hc1 Hph).
  - intros id c Hida Hc Hph. rewrite Hcan.
    assert (id = a) by congruence. subst id.
    destruct (decide (id0 = a)) as [->|Hne]; [reflexivity|].
    apply enter_Some in Hc. destruct Hc as [c1 [Hc1 [_ [Hsame _]]]].
    rewrite Hsame in Hph by congruence.
    apply (db_idle v Hd a c1 Ha Hc1 Hph).
Qed.

Lemma step_debounceOk (e : Event) (v v' : View) :
  viewOk v -> debounceOk v -> step e v = Some v' -> debounceOk v'.
Proof.
  intros Hv Hd. destruct e as [s|id|id]; simpl.
  - intros [= <-]. apply setSettings_debounceOk; assumption.
  - destruct (runs v !! id) as [c|] eqn:Hc; [|discriminate].
    destruct (phase c) eqn:Hph; try discriminate.
    intros [= <-]. apply (timerCallback_debounceOk id c v Hd Hc Hph).
  - destruct (runs v !! id) as [c|] eqn:Hc; [|discriminate].
    destruct (phase c) eqn:Hph; try discriminate.
    intros [= <-]. apply (resume_debounceOk id c v Hv Hd Hc Hph).
Qed.

Lemma run_debounceOk (es : list Event) (v v' : View) :
  viewOk v -> debounceOk v -> run es v = Some v' -> debounceOk v'.
Proof.
  revert v. induction es as [|e es IH]; intros v Hv Hd; simpl.
  - intros [= <-]. exact Hd.
  - destruct (step e v) as [v1|] eqn:Hstep; [|discriminate].
    apply IH; [apply (step_ok e v v1 Hv Hstep) | apply (step_debounceOk e v v1 Hv Hd Hstep)].
Qed.

(** At every moment at most one timer is pending: it is the timer of the
    last effect run, it is the one [debounceRef] holds, and its callback
    will generate for the current settings.  In particular no timer of an
    earlier run can still fire. *)
Theorem one_pending_timer (cut : string) (h : Host) (es : list Event) (v : View)
  (id : nat) (c : Closure) :
  hostOk h ->
  run es (mount cut h) = Some v ->
  runs v !! id = Some c -> phase c = Scheduled ->
  active v = Some id /\ debounceRef v = Some id /\
  captured c = settings v /\ cancelled c = false /\
  (forall id', id' <> id -> step (TimerFired id') v = None).
Proof.
  intros Hh Hrun Hc Hph.
  pose proof (run_ok es _ v (mount_ok cut h Hh) Hrun) as Hv.
  pose proof (run_debounceOk es _ v (mount_ok cut h Hh) (mount_debounceOk cut h) Hrun) as Hd.
  pose proof (db_single v Hd id c Hc Hph) as Hact.
  split; [exact Hact|]. split; [rewrite (db_ref v Hd); exact Hact|].
  split; [apply (db_captured v Hd id c Hact Hc)|]. split.
  - destruct (ok_active v Hv) as [a [ca [Ha [Hca Hcan]]]]. congruence.
  - intros id' Hne. simpl. destruct (runs v !! id') as [c'|] eqn:Hc'; [|reflexivity].
    destruct (phase c') eqn:Hph'; try reflexivity.
    pose proof (db_single v Hd id' c' Hc' Hph'). congruence.
Qed.

(** The "updating..." indicator follows the last effect run: it is on while
    that run is generating, and off once that run has settled, whatever
    earlier runs do in between. *)
Theorem regenerating_follows_last_run (cut : string) (h : Host) (es : list Event)
  (v : View) (id : nat) (c : Closure) :
  hostOk h ->
  run es (mount cut h) = Some v ->
  active v = Some id -> runs v !! id = Some c ->
  (phase c = InFlight -> regenerating v = true) /\
  (phase c = Settled -> regenerating v = false).
Proof.
  intros Hh Hrun Ha Hc.
  pose proof (run_debounceOk es _ v (mount_ok cut h Hh) (mount_debounceOk cut h) Hrun) as Hd.
  split; [apply (db_busy v Hd id c Ha Hc) | apply (db_idle v Hd id c Ha Hc)].
Qed.

Lemma resume_runs (id0 : nat) (c0 : Closure) (v : View) :
  runs (resume id0 c0 v) = alter (enter Settled) id0 (runs v).
Proof.
  unfold resume.
  destruct (addStickerOutline_cases (cutout v) (captured c0) (page v))
    as [[m ->]|[blob ->]]; [reflexivity|].
  destruct (cancelled c0); reflexivity.
Qed.

(** A cleared timer stays cleared. *)
Lemma cleared_stays (e : Event) (v v' : View) (a : nat) :
  viewOk v -> debounceOk v ->
  (exists c, runs v !! a = Some c /\ phase c = Cleared /\ cancelled c = true) ->
  step e v = Some v' ->
  exists c, runs v' !! a = Some c /\ phase c = Cleared /\ cancelled c = true.
Proof.
  intros Hv Hd [c [Hc [Hph Hcan]]].
  destruct e as [s|id|id]; simpl.
  - intros [= <-].
    destruct (ok_active v Hv) as [a0 [c0 [Ha0 [Hc0 Hcan0]]]].
    pose proof (db_ref v Hd) as Href. rewrite Ha0 in Href.
    pose proof (ok_timers v Hv a c Hc) as Hlt.
    rewrite (setSettings_phase s v a0 a Ha0 Href).
    rewrite decide_False by lia.
    rewrite decide_False by (intros ->; congruence).
    exists c. auto.
  - destruct (runs v !! id) as [c1|] eqn:Hc1; [|discriminate].
    destruct (phase c1) eqn:Hph1; try discriminate.
    intros [= <-]. simpl. rewrite lookup_alter_ne by (intros ->; congruence).
    exists c. auto.
  - destruct (runs v !! id) as [c1|] eqn:Hc1; [|discriminate].
    destruct (phase c1) eqn:Hph1; try discriminate.
    intros [= <-]. rewrite resume_runs, lookup_alter_ne by (intros ->; congruence).
    exists c. auto.
Qed.

(** A run superseded while its timer is pending never starts: its timer is
    cleared by the change, it never fires afterwards, and no generation is
    ever made for its settings. *)
Theorem superseded_pending_never_runs (cut : string) (h : Host) (evs1 evs2 : list Event)
  (v1 v2 : View) (a : nat) (c : Closure) (sB : StickerSettings) :
  hostOk h ->
  run evs1 (mount cut h) = Some v1 ->
  runs v1 !! a = Some c -> phase c = Scheduled ->
  run (SettingsChanged sB :: evs2) v1 = Some v2 ->
  (exists c2, runs v2 !! a = Some c2 /\ phase c2 = Cleared /\ cancelled c2 = true) /\
  produced v2 !! a = None /\
  step (TimerFired a) v2 = None /\
  step (GenerationSettled a) v2 = None.
Proof.
  intros Hh Hrun1 Hc Hph Hrun2. simpl in Hrun2.
  pose proof (run_ok evs1 _ v1 (mount_ok cut h Hh) Hrun1) as Hv1.
  pose proof (run_debounceOk evs1 _ v1 (mount_ok cut h Hh) (mount_debounceOk cut h) Hrun1)
    as Hd1.
  pose proof (db_single v1 Hd1 a c Hc Hph) as Ha.
  pose proof (db_ref v1 Hd1) as Href. rewrite Ha in Href.
  pose proof (ok_timers v1 Hv1 a c Hc) as Hlt.
  assert (Hstart : exists c2, runs (setSettings sB v1) !! a = Some c2 /\
                     phase c2 = Cleared /\ cancelled c2 = true).
  { rewrite (setSettings_phase sB v1 a a Ha Href).
    rewrite decide_False by lia. rewrite decide_True by reflexivity.
    rewrite Hc. simpl. eexists. split; [reflexivity|].
    rewrite !unschedule_phase, !unschedule_cancelled. simpl. rewrite Hph. auto. }
  assert (Hend : viewOk v2 /\
                 exists c2, runs v2 !! a = Some c2 /\ phase c2 = Cleared /\ cancelled c2 = true).
  { pose proof (setSettings_ok sB v1 Hv1) as Hv.
    pose proof (setSettings_debounceOk sB v1 Hv1 Hd1) as Hd.
    revert Hv Hd Hstart Hrun2. generalize (setSettings sB v1).
    induction evs2 as [|e evs2 IH]; intros v Hv Hd Hcl; simpl.
    - intros [= <-]. auto.
    - destruct (step e v) as [v'|] eqn:Hstep; [|discriminate].
      apply IH; [apply (step_ok e v v' Hv Hstep)
                | apply (step_debounceOk e v v' Hv Hd Hstep)
                | apply (cleared_stays e v v' a Hv Hd Hcl Hstep)]. }
  destruct Hend as [Hv2 [c2 [Hc2 [Hph2 Hcan2]]]].
  split; [exists c2; auto|]. split.
  - destruct (produced v2 !! a) as [u|] eqn:Hp; [|reflexivity].
    destruct (ok_settled v2 Hv2 a u Hp) as [c3 [Hc3 Hph3]]. congruence.
  - simpl. rewrite Hc2, Hph2. split; reflexivity.
Qed.

(** *** Unmounting *)




End Debounce.

Lemma one_pending_timer_witness :
  active (@mount plainBrowser "blob:cutout" plainHost) = Some 1.
Proof.
  refine (proj1 (@one_pending_timer plainBrowser "blob:cutout" plainHost []
                   (mount "blob:cutout" plainHost) 1
                   {| captured := DEFAULT_SETTINGS; cancelled := false; phase := Scheduled |}
                   _ eq_refl eq_refl eq_refl)).
  intros u _. apply lookup_empty.
Defined.

Lemma regenerating_follows_last_run_witness :
  regenerating (timerCallback 1 (@mount plainBrowser "blob:cutout" plainHost)) = true.
Proof.
  refine (proj1 (@regenerating_follows_last_run plainBrowser "blob:cutout" plainHost
                   [TimerFired 1] (timerCallback 1 (mount "blob:cutout" plainHost)) 1
                   {| captured := DEFAULT_SETTINGS; cancelled := false; phase := InFlight |}
                   _ eq_refl eq_refl eq_refl) eq_refl).
  intros u _. apply lookup_empty.
Defined.

Lemma superseded_pending_never_runs_witness :
  step (TimerFired 1)
       (@setSettings plainBrowser (withWidth 12 DEFAULT_SETTINGS)
          (mount "blob:cutout" plainHost)) = None.
Proof.
  refine (proj1 (proj2 (proj2
    (@superseded_pending_never_runs plainBrowser "blob:cutout" plainHost [] []
       (mount "blob:cutout" plainHost)
       (setSettings (withWidth 12 DEFAULT_SETTINGS) (mount "blob:cutout" plainHost))
       1 {| captured := DEFAULT_SETTINGS; cancelled := false; phase := Scheduled |}
       (withWidth 12 DEFAULT_SETTINGS) _ eq_refl eq_refl eq_refl eq_refl)))).
  intros u _. apply lookup_empty.
Defined.


(** * [Home] *)

Close Scope R_scope.

Section HomeProofs.
Context `{Browser}.







(** Progress reports move the percentage while the background is removed
    and change nothing otherwise: a report that arrives when the run is done
    or has failed, or from a callback a failed run left subscribed, cannot
    bring the loading state back. *)
Theorem late_progress_ignored (ps : list R) (hm : Home) :
  (forall n, state hm <> RemovingBg n) ->
  homeRun (map Progress ps) hm = Some hm.
Proof.
  intros Hst. induction ps as [|p ps IH]; simpl; [reflexivity|].
  destruct (subscriptions hm) eqn:Hsub; [exact IH|].
  replace {| state := onProgress p (state hm); job := job hm;
             subscriptions := S n; homePage := homePage hm |} with hm; [exact IH|].
  destruct hm as [st j sb pg]. simpl in *. subst sb.
  destruct st; try reflexivity. exfalso. eapply Hst. reflexivity.
Qed.

End HomeProofs.


Lemma late_progress_ignored_witness :
  @homeRun plainBrowser (map Progress [40%R; 100%R])
     {| state := Error "no GPU"; job := None; subscriptions := 1; homePage := plainHost |}
  = Some {| state := Error "no GPU"; job := None; subscriptions := 1; homePage := plainHost |}.
Proof. apply late_progress_ignored. intros n. discriminate. Defined.

(** * What the view shows *)

Close Scope R_scope.

Section Content.
Context `{Browser}.

Lemma addStickerOutline_cases_blob (url : string) (s : StickerSettings) (h : Host) :
  (exists m, addStickerOutline url s h = (Rejected m, h)) \/
  (exists img blob,
     decode h url = Some img /\ stickerBlob img s = Some blob /\
     addStickerOutline url s h =
       (Resolved (nextUrl h),
        {| decode := decode h; contextAvailable := contextAvailable h;
           objectUrls := <[nextUrl h := blob]> (objectUrls h);
           nextUrl := S (nextUrl h) |})).
Proof.
  unfold addStickerOutline, stickerBlob.
  destruct (decode h url) as [img|]; [|left; eauto].
  destruct (contextAvailable h) eqn:Hctx; simpl; [|left; eauto].
  destruct (toBlob _ _ _) as [blob|] eqn:Hblob; [right | left; eauto].
  exists img, blob. split; [reflexivity|]. split; [exact Hblob|].
  unfold createObjectURL. rewrite Hctx. reflexivity.
Qed.

Lemma mount_contentOk (cut : string) (h : Host) : contentOk h cut (mount cut h).
Proof.
  unfold mount, effect. constructor; simpl.
  - reflexivity.
  - reflexivity.
  - intros id u b c Hp. rewrite lookup_empty in Hp. discriminate.
  - intros id u _ Hp. rewrite lookup_empty in Hp. discriminate.
Qed.

Lemma setSettings_contentOk (h0 : Host) (cut : string) (s : StickerSettings) (v : View) :
  viewOk v -> debounceOk v -> contentOk h0 cut v -> contentOk h0 cut (setSettings s v).
Proof.
  intros Hv Hd Hc. destruct (ok_active v Hv) as [a [ca [Ha [Hca _]]]].
  pose proof (db_ref v Hd) as Href. rewrite Ha in Href.
  destruct (setSettings_fields s v Hv) as [Hpage [Hprod [Hshown [_ [Hact _]]]]].
  assert (Hcut : cutout (setSettings s v) = cutout v)
    by (unfold setSettings; simpl; rewrite Ha; reflexivity).
  constructor; rewrite ?Hpage, ?Hprod, ?Hshown, ?Hact, ?Hcut.
  - apply (ct_cutout h0 cut v Hc).
  - apply (ct_decode h0 cut v Hc).
  - intros id u b c Hp Hb Hrun.
    destruct (ok_settled v Hv id u Hp) as [c0 [Hc0 _]].
    pose proof (ok_timers v Hv id c0 Hc0) as Hlt.
    rewrite (setSettings_phase s v a id Ha Href) in Hrun.
    rewrite decide_False in Hrun by lia. rewrite Hc0 in Hrun.
    destruct (ct_blob h0 cut v Hc id u b c0 Hp Hb Hc0) as [img [Himg Hblob]].
    exists img. split; [exact Himg|].
    destruct (decide (a = id)); simpl in Hrun; injection Hrun as <-;
      rewrite ?unschedule_captured; exact Hblob.
  - intros id u [= <-] Hp. exfalso.
    destruct (ok_settled v Hv _ u Hp) as [c0 [Hc0 _]].
    pose proof (ok_timers v Hv _ c0 Hc0). lia.
Qed.

Lemma timerCallback_contentOk (h0 : Host) (cut : string) (id0 : nat) (v : View) :
  contentOk h0 cut v -> contentOk h0 cut (timerCallback id0 v).
Proof.
  intros Hc. constructor; simpl.
  - apply (ct_cutout h0 cut v Hc).
  - apply (ct_decode h0 cut v Hc).
  - intros id u b c Hp Hb Hrun. apply lookup_alter_Some in Hrun.
    destruct Hrun as [[-> [c1 [Hc1 ->]]]|[_ Hc1]].
    + apply (ct_blob h0 cut v Hc id u b c1 Hp Hb Hc1).
    + apply (ct_blob h0 cut v Hc id u b c Hp Hb Hc1).
  - apply (ct_shown h0 cut v Hc).
Qed.

Lemma resume_contentOk (h0 : Host) (cut : string) (id0 : nat) (c0 : Closure) (v : View) :
  viewOk v -> contentOk h0 cut v ->
  runs v !! id0 = Some c0 -> phase c0 = InFlight ->
  contentOk h0 cut (resume id0 c0 v).
Proof.
  intros Hv Hc Hc0 Hph0.
  destruct (unsettled_fresh v id0 c0 Hv Hc0) as [Hnone Hnot]; [congruence|].
  pose proof (ok_host v Hv) as Hhost.
  destruct (ok_active v Hv) as [a [ca [Ha [Hca Hcana]]]].
  assert (Hold : forall id u b c,
            id <> id0 -> produced v !! id = Some u ->
            objectUrls (page v) !! u = Some b ->
            alter (enter Settled) id0 (runs v) !! id = Some c ->
            exists img, decode h0 cut = Some img /\ stickerBlob img (captured c) = Some b).
  { intros id u b c Hne Hp Hb Hrun. rewrite lookup_alter_ne in Hrun by congruence.
    apply (ct_blob h0 cut v Hc id u b c Hp Hb Hrun). }
  unfold resume.
  destruct (addStickerOutline_cases_blob (cutout v) (captured c0) (page v))
    as [[m ->]|[img [blob [Himg [Hblob ->]]]]].
  - constructor; simpl.
    + apply (ct_cutout h0 cut v Hc).
    + apply (ct_decode h0 cut v Hc).
    + intros id u b c Hp Hb Hrun.
      apply (Hold id u b c); try assumption. intros ->. congruence.
    + apply (ct_shown h0 cut v Hc).
  - rewrite (ct_cutout h0 cut v Hc), (ct_decode h0 cut v Hc) in Himg.
    destruct (cancelled c0) eqn:Hcan.
    + constructor; unfold revokeObjectURL; simpl.
      * apply (ct_cutout h0 cut v Hc).
      * apply (ct_decode h0 cut v Hc).
      * intros id u b c Hp Hb Hrun. apply lookup_insert_Some in Hp.
        destruct Hp as [[_ <-]|[Hne Hp]].
        -- rewrite lookup_delete_eq in Hb. discriminate.
        -- pose proof (ok_fresh v Hv id u Hp) as Hlt.
           rewrite lookup_delete_ne, lookup_insert_ne in Hb by lia.
           apply (Hold id u b c); auto.
      * intros id u Hact Hp. apply lookup_insert_Some in Hp.
        destruct Hp as [[<- _]|[_ Hp]]; [congruence|].
        apply (ct_shown h0 cut v Hc id u Hact Hp).
    + assert (Hid0 : active v = Some id0).
      { destruct (decide (a = id0)) as [<-|Hne]; [exact Ha|].
        rewrite (ok_superseded v Hv id0 c0 Hc0) in Hcan by congruence. discriminate. }
      assert (Hprev : forall u, stickerUrl v = Some u -> u < nextUrl (page v)).
      { intros u Hu. apply held_below; [exact Hhost | apply (ok_live v Hv u Hu)]. }
      constructor; simpl.
      * apply (ct_cutout h0 cut v Hc).
      * rewrite <- (ct_decode h0 cut v Hc). destruct (stickerUrl v); reflexivity.
      * intros id u b c Hp Hb Hrun.
        assert (Hb' : <[nextUrl (page v) := blob]> (objectUrls (page v)) !! u = Some b).
        { destruct (stickerUrl v) as [prev|]; simpl in Hb; [|exact Hb].
          apply lookup_delete_Some in Hb. tauto. }
        apply lookup_insert_Some in Hp. destruct Hp as [[<- <-]|[Hne Hp]].
        -- rewrite lookup_insert_eq in Hb'. injection Hb' as <-.
           rewrite lookup_alter_eq, Hc0 in Hrun. simpl in Hrun. injection Hrun as <-.
           exists img. auto.
        -- pose proof (ok_fresh v Hv id u Hp) as Hlt.
           rewrite lookup_insert_ne in Hb' by lia.
           apply (Hold id u b c); auto.
      * intros id u Hact _. congruence.
Qed.

Lemma step_contentOk (h0 : Host) (cut : string) (e : Event) (v v' : View) :
  viewOk v -> debounceOk v -> contentOk h0 cut v -> step e v = Some v' ->
  contentOk h0 cut v'.
Proof.
  intros Hv Hd Hc. destruct e as [s|id|id]; simpl.
  - intros [= <-]. apply setSettings_contentOk; assumption.
  - destruct (runs v !! id) as [c|] eqn:Hrun; [|discriminate].
    destruct (phase c) eqn:Hph; try discriminate.
    intros [= <-]. apply timerCallback_contentOk, Hc.
  - destruct (runs v !! id) as [c|] eqn:Hrun; [|discriminate].
    destruct (phase c) eqn:Hph; try discriminate.
    intros [= <-]. apply (resume_contentOk h0 cut id c v Hv Hc Hrun Hph).
Qed.

Lemma run_contentOk (h0 : Host) (cut : string) (es : list Event) (v v' : View) :
  viewOk v -> debounceOk v -> contentOk h0 cut v -> run es v = Some v' ->
  contentOk h0 cut v'.
Proof.
  revert v. induction es as [|e es IH]; intros v Hv Hd Hc; simpl.
  - intros [= <-]. exact Hc.
  - destruct (step e v) as [v1|] eqn:Hstep; [|discriminate].
    apply IH; [apply (step_ok e v v1 Hv Hstep)
              | apply (step_debounceOk e v v1 Hv Hd Hstep)
              | apply (step_contentOk h0 cut e v v1 Hv Hd Hc Hstep)].
Qed.

(** Once the run for the current settings has resolved, the view shows its
    URL, and that URL holds the PNG of the cutout rendered with the current
    settings, whatever changes and earlier generations came before. *)
Theorem shown_sticker_is_current (cut : string) (h : Host) (es : list Event) (v : View)
  (id : nat) (u : ObjectURL) :
  hostOk h ->
  run es (mount cut h) = Some v ->
  active v = Some id -> produced v !! id = Some u ->
  stickerUrl v = Some u /\
  exists img blob,
    decode h cut = Some img /\
    stickerBlob img (settings v) = Some blob /\
    objectUrls (page v) !! u = Some blob.
Proof.
  intros Hh Hrun Hact Hp.
  pose proof (run_ok es _ v (mount_ok cut h Hh) Hrun) as Hv.
  pose proof (run_debounceOk es _ v (mount_ok cut h Hh) (mount_debounceOk cut h) Hrun) as Hd.
  pose proof (run_contentOk h cut es _ v (mount_ok cut h Hh) (mount_debounceOk cut h)
                (mount_contentOk cut h) Hrun) as Hc.
  pose proof (ct_shown h cut v Hc id u Hact Hp) as Hshown.
  pose proof (ok_shown v Hv) as Hok. rewrite Hshown in Hok.
  destruct Hok as [u' [Hp' Hu']].
  assert (u' = u) by congruence. subst u'.
  split; [exact Hu'|].
  destruct (ok_live v Hv u Hu') as [b Hb].
  destruct (ok_settled v Hv id u Hp) as [c [Hrunc _]].
  destruct (ct_blob h cut v Hc id u b c Hp Hb Hrunc) as [img [Himg Hblob]].
  exists img, b. split; [exact Himg|]. split; [|exact Hb].
  rewrite <- (db_captured v Hd id c Hact Hrunc). exact Hblob.
Qed.

End Content.

Lemma shown_sticker_is_current_witness :
  exists v,
    run [ SettingsChanged (withWidth 12 DEFAULT_SETTINGS); TimerFired 2; GenerationSettled 2 ]
        (@mount plainBrowser "blob:cutout" plainHost) = Some v /\
    stickerUrl v = Some 0.
Proof.
  eexists. split; [reflexivity|].
  refine (proj1 (@shown_sticker_is_current plainBrowser "blob:cutout" plainHost
                   [ SettingsChanged (withWidth 12 DEFAULT_SETTINGS);
                     TimerFired 2; GenerationSettled 2 ]
                   _ 2 0 _ eq_refl eq_refl eq_refl)).
  intros u _. apply lookup_empty.
Defined.

(** * The progress ring *)

Open Scope R_scope.

Lemma Math_round_near (x : R) : x - / 2 < IZR (Math_round x) <= x + / 2.
Proof.
  unfold Math_round. rewrite minus_IZR.
  destruct (archimed (x + / 2)) as [Hgt Hle]. split; lra.
Qed.

(** While the background is removed, a progress report between 0 and 100
    shows as a whole percentage between 0 and 100, within a half of what was
    reported, and the undrawn part of the ring stays between 0 and its
    length of 100.5: all of it at 0 percent, none at 100, and never more for
    a higher percentage. *)
Theorem progress_ring (p : R) (n0 : Z) :
  0 <= p <= 100 ->
  exists n : Z,
    onProgress p (RemovingBg n0) = RemovingBg n /\
    (0 <= n <= 100)%Z /\
    Rabs (IZR n - p) <= / 2 /\
    0 <= strokeDashoffset (RemovingBg n) <= 100.5 /\
    strokeDashoffset (RemovingBg 0) = 100.5 /\
    strokeDashoffset (RemovingBg 100) = 0 /\
    (forall m : Z, (n <= m)%Z ->
       strokeDashoffset (RemovingBg m) <= strokeDashoffset (RemovingBg n)).
Proof.
  intros Hp. exists (Math_round p). pose proof (Math_round_near p) as [Hlo Hhi].
  assert (Hn : (0 <= Math_round p <= 100)%Z).
  { split.
    - assert (H0 : (-1 < Math_round p)%Z) by (apply lt_IZR; lra). lia.
    - assert (H1 : (Math_round p < 101)%Z) by (apply lt_IZR; lra). lia. }
  assert (Hr : 0 <= IZR (Math_round p) <= 100).
  { destruct Hn as [Hn0 Hn1]. apply IZR_le in Hn0, Hn1. lra. }
  split; [reflexivity|]. split; [exact Hn|].
  split; [apply Rabs_le; lra|].
  unfold strokeDashoffset, loadingProgress.
  split; [lra|]. split; [lra|]. split; [lra|].
  intros m Hm. apply IZR_le in Hm. lra.
Qed.

Lemma progress_ring_witness :
  exists n : Z, onProgress 40 (RemovingBg 0) = RemovingBg n /\ (0 <= n <= 100)%Z.
Proof.
  assert (Hp : 0 <= 40 <= 100) by lra.
  destruct (progress_ring 40 0 Hp) as [n [Hn [Hrange _]]].
  exists n. split; assumption.
Defined.
